(** * PyBal core: forwarding-table commands, pool reconciliation,
      monitor result ingestion and the IP prefix codec.

    A shallow embedding of [pybal/ipvs.py], [pybal/monitor.py] and
    [pybal/bgp/ip.py].  Python objects that are mutated in place (servers,
    the service, the monitor, a prefix) are threaded as explicit state;
    methods that can raise return a [result]. *)

From Stdlib Require Import ZArith Lia List.
From Stdlib.Strings Require Import String Ascii Byte.
From stdpp Require Import base gmap sets list strings pretty.

Open Scope string_scope.
Open Scope list_scope.
Open Scope Z_scope.

(** ** Python runtime conventions shared by the three modules *)

(** The exceptions the modelled code can raise. [StructError] is
    [struct.error]; [AssertionError] comes from [assert]. *)
Inductive exn : Type :=
| KeyError
| ValueError
| AssertionError
| StructError
| TypeError.

Inductive result (A : Type) : Type :=
| Ok (a : A)
| Raise (e : exn).
Arguments Ok {A} a.
Arguments Raise {A} e.

#[global] Instance result_ret : MRet result := λ A a, Ok a.
#[global] Instance result_bind : MBind result := λ A B f m,
  match m with
  | Ok a => f a
  | Raise e => Raise e
  end.
#[global] Instance result_fmap : FMap result := λ A B f m,
  match m with
  | Ok a => Ok (f a)
  | Raise e => Raise e
  end.

(** [c in s] for a one-character needle. *)
Fixpoint char_in (c : ascii) (s : string) : bool :=
  match s with
  | EmptyString => false
  | String a s' => if Ascii.eqb a c then true else char_in c s'
  end.

(** ['%d' % z] for an integer [z]. *)
Definition fmt_d (z : Z) : string := pretty z.

(** Truth value of an attribute holding [None] or a string, and of one
    holding [None] or an integer. *)
Definition truthy_str (o : option string) : bool :=
  match o with
  | Some (String _ _) => true
  | _ => false
  end.

Definition truthy_int (o : option Z) : bool :=
  match o with
  | Some z => negb (Z.eqb z 0)
  | None => false
  end.

(** ** pybal/ipvs.py *)

(** *** Servers

    [IPVSManager] and [LVSService] read [host], [ip] and [weight] of a
    server and write [port] and [pooled].  Server objects live in a heap
    and are referred to by location: the sets of servers are sets of
    references, and membership is object identity (the server class of
    the test suite defines [__hash__] and no [__eq__]). *)
Record Server : Type := mkServer {
  host : string;
  ip : option string;
  port : option Z;
  weight : option Z;
  pooled : bool
}.

Definition set_pooled (b : bool) (s : Server) : Server :=
  mkServer (host s) (ip s) (port s) (weight s) b.


Definition set_weight (w : option Z) (s : Server) : Server :=
  mkServer (host s) (ip s) (port s) w (pooled s).

Definition loc : Type := positive.

(** *** The service tuple [(protocol, address, port, ...)]

    The command builders index the tuple and test its length; the
    optional fourth and fifth components are the scheduler and the
    one-packet flag. *)
Record service_tuple : Type := mkServiceTuple {
  st_protocol : string;
  st_address : string;
  st_port : Z;
  st_rest : option (string * option bool)
}.

(** *** IPVSManager: command construction *)

Definition protocol_flags : gmap string string :=
  <["tcp" := "-t"]> (<["udp" := "-u"]> ∅).

Definition subCommandService (service : service_tuple) : result string :=
  protocol ← match protocol_flags !! st_protocol service with
              | Some flag => Ok flag
              | None => Raise KeyError
              end;
  let service' :=
    if char_in ":" (st_address service)
    then " [" +:+ st_address service +:+ "]:" +:+ fmt_d (st_port service)
    else " " +:+ st_address service +:+ ":" +:+ fmt_d (st_port service) in
  Ok (protocol +:+ service').

Definition subCommandServer (server : Server) : string :=
  "-r " +:+ (if truthy_str (ip server) then default "" (ip server)
             else host server).

Definition commandClearServiceTable : string := "-C".

Definition commandRemoveService (service : service_tuple) : result string :=
  sub ← subCommandService service;
  Ok ("-D " +:+ sub).

Definition commandAddService (service : service_tuple) : result string :=
  sub ← subCommandService service;
  let cmd := "-A " +:+ sub in
  match st_rest service with
  | Some (scheduler, ops) =>
      let cmd := cmd +:+ " -s " +:+ scheduler in
      match ops with
      | Some true => Ok (cmd +:+ " -o")
      | _ => Ok cmd
      end
  | None => Ok cmd
  end.

Definition commandRemoveServer (service : service_tuple) (server : Server)
  : result string :=
  sub ← subCommandService service;
  Ok (String.concat " " ["-d"; sub; subCommandServer server]).

Definition commandAddServer (service : service_tuple) (server : Server)
  : result string :=
  sub ← subCommandService service;
  let cmd := String.concat " " ["-a"; sub; subCommandServer server] in
  if truthy_int (weight server)
  then Ok (cmd +:+ " -w " +:+ fmt_d (default 0 (weight server)))
  else Ok cmd.

Definition commandEditServer (service : service_tuple) (server : Server)
  : result string :=
  sub ← subCommandService service;
  let cmd := String.concat " " ["-e"; sub; subCommandServer server] in
  if truthy_int (weight server)
  then Ok (cmd +:+ " -w " +:+ fmt_d (default 0 (weight server)))
  else Ok cmd.

(** *** IPVSManager: applying a command list

    [DryRun] and [Debug] are class attributes.  [modifyState] prints the
    list when [Debug] is set, returns when [DryRun] is set, and otherwise
    writes the commands, one per line, to the standard input of one
    [ipvsadm -R] process.  [handed] records the argument of every call
    (what the test suite's [stubbedModifyState] keeps), [printed] what was
    printed and [piped] the batch written to each process. *)
Record IPVSManager : Type := mkIPVSManager {
  DryRun : bool;
  Debug : bool;
  handed : list (list string);
  printed : list (list string);
  piped : list (list string)
}.

Definition modifyState (cmdList : list string) (m : IPVSManager)
  : IPVSManager :=
  let printed' := if Debug m then printed m ++ [cmdList] else printed m in
  let piped' := if DryRun m then piped m else piped m ++ [cmdList] in
  mkIPVSManager (DryRun m) (Debug m) (handed m ++ [cmdList]) printed' piped'.

(** *** The state around a service: the server objects, the manager class
    and the services [BGPFailover.associateService] was told about. *)
Record Configuration : Type := mkConfiguration {
  cfg_dryrun : option bool;
  cfg_debug : option bool;
  cfg_bgp : option bool;
  cfg_bgp_med : option Z
}.

Record world : Type := mkWorld {
  heap : gmap loc Server;
  ipvsManager : IPVSManager;
  associated : list (string * option Z)
}.

#[global] Instance Server_inhabited : Inhabited Server :=
  populate (mkServer "" None None None false).

(** Reading and writing a server object through its reference.  Every
    reference held by the program denotes an object; the total lookup
    gives a location outside the heap an arbitrary server, on which no
    property below depends. *)
Definition deref (w : world) (l : loc) : Server := heap w !!! l.

Definition store (l : loc) (s : Server) (w : world) : world :=
  mkWorld (<[l := s]> (heap w)) (ipvsManager w) (associated w).

Definition call_modifyState (cmdList : list string) (w : world) : world :=
  mkWorld (heap w) (modifyState cmdList (ipvsManager w)) (associated w).

(** *** LVSService *)
Record LVSService : Type := mkLVSService {
  name : string;
  servers : gset loc;
  protocol : string;
  svc_ip : string;
  svc_port : Z;
  scheduler : string;
  ops : bool;
  configuration : Configuration
}.

Definition set_servers (s : gset loc) (self : LVSService) : LVSService :=
  mkLVSService (name self) s (protocol self) (svc_ip self) (svc_port self)
    (scheduler self) (ops self) (configuration self).

Definition SVC_PROTOS : list string := ["tcp"; "udp"].
Definition SVC_SCHEDULERS : list string :=
  ["rr"; "wrr"; "lc"; "wlc"; "lblc"; "lblcr"; "dh"; "sh"; "sed"; "nq"].

Definition service (self : LVSService) : service_tuple :=
  mkServiceTuple (protocol self) (svc_ip self) (svc_port self)
    (Some (scheduler self, Some (ops self))).

Definition createService (self : LVSService) (w : world) : result world :=
  rm ← commandRemoveService (service self);
  add ← commandAddService (service self);
  let cmdList := [rm; add] in
  Ok (call_modifyState cmdList w).

(** [LVSService.__init__]; the second argument is the tuple
    [(protocol, ip, port, scheduler, ops)]. *)
Definition LVSService_init (name : string)
    (svc : string * string * Z * string * bool)
    (configuration : Configuration) (w : world)
  : result (LVSService * world) :=
  let '(protocol, ip, port, scheduler, ops) := svc in
  if negb (bool_decide (protocol ∈ SVC_PROTOS))
     || negb (bool_decide (scheduler ∈ SVC_SCHEDULERS))
  then Raise ValueError
  else if bool_decide (protocol = "tcp") && ops
  then Raise ValueError
  else
    let self := mkLVSService name ∅ protocol ip port scheduler ops
                  configuration in
    let m := ipvsManager w in
    let m := mkIPVSManager (default false (cfg_dryrun configuration))
               (default false (cfg_debug configuration))
               (handed m) (printed m) (piped m) in
    let assoc :=
      if default true (cfg_bgp configuration)
      then associated w ++ [(ip, cfg_bgp_med configuration)]
      else associated w in
    w' ← createService self (mkWorld (heap w) m assoc);
    Ok (self, w').

(** [assignServers]: the three list comprehensions iterate over fresh
    sets, in an order Python leaves to the set; [elements] fixes one
    order for each.  [self.servers] is rebound to the caller's set; the
    set is a value here, the caller's variable is not modelled. *)
Definition assignServers (self : LVSService) (newServers : gset loc)
    (w : world) : result (LVSService * world) :=
  adds ← mapM (λ server, commandAddServer (service self) (deref w server))
           (elements (newServers ∖ servers self));
  edits ← mapM (λ server, commandEditServer (service self) (deref w server))
            (elements (newServers ∩ servers self));
  removes ← mapM (λ server,
                    commandRemoveServer (service self) (deref w server))
              (elements (servers self ∖ newServers));
  let cmdList := adds ++ edits ++ removes in
  let self := set_servers newServers self in
  Ok (self, call_modifyState cmdList w).

Definition addServer (self : LVSService) (server : loc) (w : world)
  : result (LVSService * world) :=
  cmd ← (if bool_decide (server ∉ servers self)
         then commandAddServer (service self) (deref w server)
         else commandEditServer (service self) (deref w server));
  let cmdList := [cmd] in
  let self := set_servers (servers self ∪ {[server]}) self in
  let w := call_modifyState cmdList w in
  Ok (self, store server (set_pooled true (deref w server)) w).

(** [set.remove] raises [KeyError] for a missing element; nothing has
    been changed at that point. *)
Definition removeServer (self : LVSService) (server : loc) (w : world)
  : result (LVSService * world) :=
  cmd ← commandRemoveServer (service self) (deref w server);
  let cmdList := [cmd] in
  if bool_decide (server ∈ servers self)
  then
    let self := set_servers (servers self ∖ {[server]}) self in
    let w := store server (set_pooled false (deref w server)) w in
    Ok (self, call_modifyState cmdList w)
  else Raise KeyError.


(** The command list of the latest [modifyState] call. *)
Definition last_cmdList (w : world) : option (list string) :=
  last (handed (ipvsManager w)).

(** ** pybal/monitor.py *)

(** The calls a monitor makes on its coordinator. *)
Inductive notification : Type :=
| resultUp
| resultDown (reason : option string).

Record Coordinator : Type := mkCoordinator {
  calls : list notification
}.

(** The labelled children of the five class-level metrics that belong to
    one monitor instance. *)
Record Metrics : Type := mkMetrics {
  up_transitions_total : Z;
  down_transitions_total : Z;
  up_results_total : Z;
  down_results_total : Z;
  status : option Z
}.

(** The part of the reactor a monitor uses: system event triggers. *)
Record Reactor : Type := mkReactor {
  next_trigger : nat;
  triggers : gset nat
}.

Record MonitoringProtocol : Type := mkMonitoringProtocol {
  coordinator : option Coordinator;
  up : option bool;
  active : bool;
  firstCheck : bool;
  _shutdownTriggerID : option nat;
  metrics : Metrics;
  reactor : Reactor
}.

Definition MonitoringProtocol_init (coordinator : option Coordinator)
    (metrics : Metrics) (reactor : Reactor) : MonitoringProtocol :=
  mkMonitoringProtocol coordinator None false true None metrics reactor.

Definition run (self : MonitoringProtocol) : result MonitoringProtocol :=
  if active self then Raise AssertionError
  else
    let r := reactor self in
    let id := next_trigger r in
    Ok (mkMonitoringProtocol (coordinator self) (up self) true
          (firstCheck self) (Some id) (metrics self)
          (mkReactor (S id) (triggers r ∪ {[id]}))).

Definition stop (self : MonitoringProtocol) : MonitoringProtocol :=
  match _shutdownTriggerID self with
  | Some id =>
      let r := reactor self in
      mkMonitoringProtocol (coordinator self) (up self) false
        (firstCheck self) None (metrics self)
        (mkReactor (next_trigger r) (triggers r ∖ {[id]}))
  | None =>
      mkMonitoringProtocol (coordinator self) (up self) false
        (firstCheck self) None (metrics self) (reactor self)
  end.

Definition set_metrics (m : Metrics) (self : MonitoringProtocol)
  : MonitoringProtocol :=
  mkMonitoringProtocol (coordinator self) (up self) (active self)
    (firstCheck self) (_shutdownTriggerID self) m (reactor self).

Definition inc_up_results (m : Metrics) : Metrics :=
  mkMetrics (up_transitions_total m) (down_transitions_total m)
    (up_results_total m + 1) (down_results_total m) (status m).

Definition inc_down_results (m : Metrics) : Metrics :=
  mkMetrics (up_transitions_total m) (down_transitions_total m)
    (up_results_total m) (down_results_total m + 1) (status m).

Definition inc_up_transitions (m : Metrics) : Metrics :=
  mkMetrics (up_transitions_total m + 1) (down_transitions_total m)
    (up_results_total m) (down_results_total m) (status m).

Definition inc_down_transitions (m : Metrics) : Metrics :=
  mkMetrics (up_transitions_total m) (down_transitions_total m + 1)
    (up_results_total m) (down_results_total m) (status m).

Definition set_status (v : Z) (m : Metrics) : Metrics :=
  mkMetrics (up_transitions_total m) (down_transitions_total m)
    (up_results_total m) (down_results_total m) (Some v).

(** [if self.coordinator: self.coordinator.<call>] *)
Definition notify (n : notification) (c : option Coordinator)
  : option Coordinator :=
  match c with
  | Some c => Some (mkCoordinator (calls c ++ [n]))
  | None => None
  end.

(** The condition reads [(self.active and self.up is False) or
    self.firstCheck]: [and] binds tighter than [or]. *)
Definition _resultUp (self : MonitoringProtocol) : MonitoringProtocol :=
  let self := set_metrics (inc_up_results (metrics self)) self in
  if active self && bool_decide (up self = Some false) || firstCheck self
  then
    mkMonitoringProtocol (notify resultUp (coordinator self)) (Some true)
      (active self) false (_shutdownTriggerID self)
      (set_status 1 (inc_up_transitions (metrics self))) (reactor self)
  else self.

Definition _resultDown (reason : option string) (self : MonitoringProtocol)
  : MonitoringProtocol :=
  let self := set_metrics (inc_down_results (metrics self)) self in
  if active self && bool_decide (up self = Some true) || firstCheck self
  then
    mkMonitoringProtocol (notify (resultDown reason) (coordinator self))
      (Some false) (active self) false (_shutdownTriggerID self)
      (set_status 0 (inc_down_transitions (metrics self))) (reactor self)
  else self.

(** [n] increments of [down_results_total] and nothing else. *)
Definition add_down_results (n : Z) (m : Metrics) : Metrics :=
  mkMetrics (up_transitions_total m) (down_transitions_total m)
    (up_results_total m) (down_results_total m + n) (status m).

(** Consecutive [_resultDown] calls, one per reason, in order. *)
Definition resultDown_calls (reasons : list (option string))
    (self : MonitoringProtocol) : MonitoringProtocol :=
  fold_left (λ m reason, _resultDown reason m) reasons self.

(** ** pybal/bgp/ip.py *)

(** Packed addresses are byte strings; text is a [string]. *)
Definition ord (b : byte) : Z := Z.of_N (Byte.to_N b).

Definition byte_of_Z (z : Z) : byte :=
  default x00 (Byte.of_N (Z.to_N (z mod 256))).

(** [chr(z)] raises [ValueError] outside [range(256)]. *)
Definition chr (z : Z) : result byte :=
  if (0 <=? z) && (z <? 256) then Ok (byte_of_Z z) else Raise ValueError.

(** [struct.pack('!H', v)] and [struct.pack('!I', v)]: big-endian
    unsigned 16 and 32 bit; [struct.error] when [v] does not fit. *)
Definition pack_H (v : Z) : result (list byte) :=
  if (0 <=? v) && (v <? 2 ^ 16)
  then Ok [byte_of_Z (v / 2 ^ 8); byte_of_Z v]
  else Raise StructError.

Definition pack_I (v : Z) : result (list byte) :=
  if (0 <=? v) && (v <? 2 ^ 32)
  then Ok [byte_of_Z (v / 2 ^ 24); byte_of_Z (v / 2 ^ 16);
           byte_of_Z (v / 2 ^ 8); byte_of_Z v]
  else Raise StructError.

(** [s.split(sep)] for a one-character separator. *)
Fixpoint split (sep : ascii) (s : string) : list string :=
  match s with
  | EmptyString => [EmptyString]
  | String c s' =>
      if Ascii.eqb c sep then EmptyString :: split sep s'
      else match split sep s' with
           | h :: t => String c h :: t
           | [] => [String c EmptyString]
           end
  end.

Definition startswith (p s : string) : bool := String.prefix p s.

Definition endswith (p s : string) : bool :=
  (String.length p <=? String.length s)%nat
  && String.eqb
       (String.substring (String.length s - String.length p)
          (String.length p) s) p.

(** [s.ljust(width, '\0')] on a byte string. *)
Definition ljust (width : Z) (s : list byte) : list byte :=
  s ++ repeat x00 (Z.to_nat (width - Z.of_nat (length s))).

(** Lexicographic order of byte strings on unsigned bytes; a proper
    prefix is smaller. *)
Fixpoint bytes_compare (a b : list byte) : comparison :=
  match a, b with
  | [], [] => Eq
  | [], _ :: _ => Lt
  | _ :: _, [] => Gt
  | x :: a', y :: b' =>
      match Z.compare (ord x) (ord y) with
      | Eq => bytes_compare a' b'
      | c => c
      end
  end.

Definition bytes_ltb (a b : list byte) : bool :=
  match bytes_compare a b with Lt => true | _ => false end.
Definition bytes_gtb (a b : list byte) : bool :=
  match bytes_compare a b with Gt => true | _ => false end.
Definition bytes_eqb (a b : list byte) : bool :=
  match bytes_compare a b with Eq => true | _ => false end.

Definition AFI_INET : Z := 1.
Definition AFI_INET6 : Z := 2.

Record IPPrefix : Type := mkIPPrefix {
  prefix : list byte;
  prefixlen : Z;
  addressfamily : Z
}.

(** The shapes of the first constructor argument that [__init__]
    distinguishes. *)
Inductive ipprefix_arg : Type :=
| ArgPrefix (p : IPPrefix)
| ArgStrTuple (packed : list byte) (len : Z)
| ArgIntTuple (ipint : Z) (len : Z)
| ArgOctetsTuple (octets : list Z) (len : Z)
| ArgText (text : string)
| ArgOther.

Section IPPrefix.

(** The builtin [int(s, base)]. *)
Variable int_ : Z → string → result Z.

(** The [for hexstr in hexlist] loop; [n] is [len(hexlist)]. *)
Fixpoint pack_hexlist (n : Z) (hexlist : list string) (acc : list byte)
  : result (list byte) :=
  match hexlist with
  | [] => Ok acc
  | hexstr :: rest =>
      match hexstr with
      | String _ _ =>
          v ← int_ 16 hexstr;
          b ← pack_H v;
          pack_hexlist n rest (acc ++ b)
      | EmptyString =>
          pack_hexlist n rest
            (acc ++ repeat x00 (2 * Z.to_nat (8 - n + 1)))
      end
  end.

(** The text given to [str.split(":")] after the leading/trailing
    ["::"] adjustment. *)
Definition adjust_colons (prefix : string) : string :=
  if startswith "::" prefix then "0" +:+ prefix
  else if endswith "::" prefix then prefix +:+ "0"
  else prefix.

Definition pack_inet6 (prefix : string) : result (list byte) :=
  let hexlist := split ":" (adjust_colons prefix) in
  if (8 <? Z.of_nat (length hexlist)) then Raise ValueError
  else pack_hexlist (Z.of_nat (length hexlist)) hexlist [].

Definition pack_inet (prefix : string) : result (list byte) :=
  mapM (λ o, n ← int_ 10 o; chr n) (split "." prefix).

(** [IPPrefix.__init__].  A textual prefix with an explicit family that
    is neither [AFI_INET] nor [AFI_INET6] leaves [self.prefix] at [None];
    every later use of such an object raises, and the [TypeError] is
    raised here at construction. *)
Definition IPPrefix_init (ipprefix : ipprefix_arg) (family : option Z)
  : result IPPrefix :=
  match ipprefix with
  | ArgPrefix p => Ok (mkIPPrefix (prefix p) (prefixlen p) (addressfamily p))
  | ArgStrTuple packed len =>
      if truthy_int family
      then Ok (mkIPPrefix packed len (default 0 family))
      else Raise ValueError
  | ArgIntTuple ipint len =>
      if truthy_int family
      then if default 0 family =? AFI_INET
           then b ← pack_I ipint; Ok (mkIPPrefix b len (default 0 family))
           else Raise ValueError
      else Raise ValueError
  | ArgOctetsTuple octets len =>
      if truthy_int family
      then b ← mapM chr octets; Ok (mkIPPrefix b len (default 0 family))
      else Raise ValueError
  | ArgText text =>
      match split "/" text with
      | [prefix; prefixlen] =>
          let af := if truthy_int family then default 0 family
                    else if char_in ":" prefix then AFI_INET6
                    else AFI_INET in
          b ← (if af =? AFI_INET then pack_inet prefix
               else if af =? AFI_INET6 then pack_inet6 prefix
               else Raise TypeError);
          len ← int_ 10 prefixlen;
          Ok (mkIPPrefix b len af)
      | _ => Raise ValueError
      end
  | ArgOther => Raise ValueError
  end.

End IPPrefix.

Definition _packedMaxLen (self : IPPrefix) : Z :=
  if addressfamily self =? AFI_INET6 then 16 else 4.

(** [-(-self.prefixlen // 8)] with floor division. *)
Definition _packedMinLen (self : IPPrefix) : Z :=
  - ((- prefixlen self) / 8).

Definition packed (pad : bool) (self : IPPrefix) : list byte :=
  if pad then ljust (_packedMaxLen self) (prefix self) else prefix self.

Definition IPPrefix_eq (self other : IPPrefix) : bool :=
  (prefixlen self =? prefixlen other)
  && bytes_eqb (packed true self) (packed true other).

Definition IPPrefix_ne (self other : IPPrefix) : bool :=
  negb (IPPrefix_eq self other).

Definition IPPrefix_lt (self other : IPPrefix) : bool :=
  bytes_ltb (prefix self) (prefix other)
  || (bytes_eqb (prefix self) (prefix other)
      && (prefixlen self <? prefixlen other)).

Definition IPPrefix_le (self other : IPPrefix) : bool :=
  IPPrefix_lt self other || IPPrefix_eq self other.

Definition IPPrefix_gt (self other : IPPrefix) : bool :=
  bytes_gtb (prefix self) (prefix other)
  || (bytes_eqb (prefix self) (prefix other)
      && (prefixlen self >? prefixlen other)).

Definition IPPrefix_ge (self other : IPPrefix) : bool :=
  IPPrefix_gt self other || IPPrefix_eq self other.

(** [reduce] without an initial value raises [TypeError] on an empty
    sequence. *)
Definition ipToInt (self : IPPrefix) : result Z :=
  match prefix self with
  | [] => Raise TypeError
  | b :: rest => Ok (fold_left (λ x y, x * 256 + ord y) rest (ord b))
  end.

(** Shifts by a negative count raise [ValueError]. *)
Definition shift_right (x n : Z) : result Z :=
  if n <? 0 then Raise ValueError else Ok (Z.shiftr x n).
Definition shift_left (x n : Z) : result Z :=
  if n <? 0 then Raise ValueError else Ok (Z.shiftl x n).

Definition netmask (self : IPPrefix) : result Z :=
  one ← shift_left 1 (Z.of_nat (length (prefix self)) * 8 - prefixlen self);
  Ok (Z.lnot (one - 1)).

(** [mask] changes the object in place and returns it. *)
Definition mask (newlen : Z) (shorten : bool) (self : IPPrefix)
  : result IPPrefix :=
  if negb (Z.of_nat (length (prefix self)) =? _packedMaxLen self)
  then Raise AssertionError
  else
    let masklen := Z.of_nat (length (prefix self)) * 8 - newlen in
    i ← ipToInt self;
    hi ← shift_right i masklen;
    v ← shift_left hi masklen;
    b ← pack_I v;
    Ok (mkIPPrefix b (if shorten then newlen else prefixlen self)
          (addressfamily self)).

(** A reading of [int(s, base)] for unsigned digit strings, enough to run
    the constructor on ordinary address text. *)
Definition digit_value (c : ascii) : option Z :=
  let n := Z.of_N (N_of_ascii c) in
  if (48 <=? n) && (n <=? 57) then Some (n - 48)
  else if (97 <=? n) && (n <=? 102) then Some (n - 87)
  else if (65 <=? n) && (n <=? 70) then Some (n - 55)
  else None.

Fixpoint digits_value (base : Z) (s : string) (acc : Z) : result Z :=
  match s with
  | EmptyString => Ok acc
  | String c s' =>
      match digit_value c with
      | Some d => if d <? base then digits_value base s' (acc * base + d)
                  else Raise ValueError
      | None => Raise ValueError
      end
  end.

Definition int_digits (base : Z) (s : string) : result Z :=
  match s with
  | EmptyString => Raise ValueError
  | _ => digits_value base s 0
  end.

(** ** Fixtures: the service and servers of the test suite *)

Definition test_config : Configuration :=
  mkConfiguration (Some true) None None None.

Definition test_service : LVSService :=
  mkLVSService "http" ∅ "tcp" "127.0.0.1" 80 "rr" false test_config.

Definition test_service_ab : LVSService :=
  set_servers {[1%positive; 2%positive]} test_service.

Definition srv_a : loc := 1%positive.
Definition srv_b : loc := 2%positive.
Definition srv_c : loc := 3%positive.

Definition test_world : world :=
  mkWorld
    (<[srv_a := mkServer "a" None None None false]>
       (<[srv_b := mkServer "b" None None (Some 25) false]>
          (<[srv_c := mkServer "c" (Some "10.0.0.3") None None true]> ∅)))
    (mkIPVSManager true false [] [] []) [].


(** Prefixes used as examples: what the constructor builds from
    ["2620::/32"], ["::/0"] and ["1:2:3/48"]. *)
Definition net_2620 : IPPrefix :=
  mkIPPrefix
    [x26; x20; x00; x00; x00; x00; x00; x00;
     x00; x00; x00; x00; x00; x00; x00; x00] 32 AFI_INET6.

Definition net_unspecified : IPPrefix :=
  mkIPPrefix (repeat x00 26) 0 AFI_INET6.

Definition net_three_groups : IPPrefix :=
  mkIPPrefix [x00; x01; x00; x02; x00; x03] 48 AFI_INET6.

(** ["10/8"] and ["10.0.0.0/8"] as the constructor builds them, and
    the IPv6 loopback address. *)
Definition short_ten : IPPrefix := mkIPPrefix [x0a] 8 AFI_INET.
Definition full_ten : IPPrefix := mkIPPrefix [x0a; x00; x00; x00] 8 AFI_INET.
Definition host_10_1_2_3 : IPPrefix :=
  mkIPPrefix [x0a; x01; x02; x03] 32 AFI_INET.
Definition loopback6 : IPPrefix :=
  mkIPPrefix
    [x00; x00; x00; x00; x00; x00; x00; x00;
     x00; x00; x00; x00; x00; x00; x00; x01] 128 AFI_INET6.

(** A monitor right after construction, with a coordinator that has
    received no call yet. *)
Definition fresh_metrics : Metrics := mkMetrics 0 0 0 0 None.
Definition fresh_reactor : Reactor := mkReactor 0 ∅.
Definition fresh_monitor : MonitoringProtocol :=
  MonitoringProtocol_init (Some (mkCoordinator [])) fresh_metrics
    fresh_reactor.

(** A running monitor whose last verdict is Up. *)
Definition up_monitor : MonitoringProtocol :=
  mkMonitoringProtocol (Some (mkCoordinator [resultUp])) (Some true) true
    false (Some 0%nat) (mkMetrics 1 0 3 0 (Some 1))
    (mkReactor 1 {[0%nat]}).

(** A stopped monitor whose first check has completed. *)
Definition stopped_monitor : MonitoringProtocol := stop up_monitor.

(** What the command builders read of a server: the address that
    [server.ip or server.host] yields and the weight when it is truthy. *)
Definition address_used (s : Server) : string :=
  if truthy_str (ip s) then default "" (ip s) else host s.

Definition weight_used (s : Server) : option Z :=
  if truthy_int (weight s) then weight s else None.

(** The effect of one [modifyState cmdList] call between two states of
    the manager class. *)
Definition one_batch (cmdList : list string) (m m' : IPVSManager) : Prop :=
  handed m' = handed m ++ [cmdList]
  ∧ printed m' = (if Debug m then printed m ++ [cmdList] else printed m)
  ∧ piped m' = (if DryRun m then piped m else piped m ++ [cmdList])
  ∧ DryRun m' = DryRun m ∧ Debug m' = Debug m.

(** A manager that really pipes to [ipvsadm] and prints. *)
Definition live_world : world :=
  mkWorld (heap test_world) (mkIPVSManager false true [] [] []) [].

(** Method calls on one monitor, in the order they happen.  [run] on a
    running monitor fails its assertion before it changes anything; the
    object is then as it was. *)
Inductive event : Type :=
| EvRun
| EvStop
| EvResultUp
| EvResultDown (reason : option string).

Definition step (ev : event) (self : MonitoringProtocol)
  : MonitoringProtocol :=
  match ev with
  | EvRun => match run self with Ok self' => self' | Raise _ => self end
  | EvStop => stop self
  | EvResultUp => _resultUp self
  | EvResultDown reason => _resultDown reason self
  end.

Definition run_events (evs : list event) (self : MonitoringProtocol)
  : MonitoringProtocol :=
  fold_left (λ m ev, step ev m) evs self.

Definition is_result (ev : event) : bool :=
  match ev with EvResultUp | EvResultDown _ => true | _ => false end.

Definition is_up_result (ev : event) : bool :=
  match ev with EvResultUp => true | _ => false end.

Definition is_down_result (ev : event) : bool :=
  match ev with EvResultDown _ => true | _ => false end.

Definition count (f : event → bool) (evs : list event) : Z :=
  Z.of_nat (length (List.filter f evs)).

Definition is_up_call (n : notification) : bool :=
  match n with resultUp => true | resultDown _ => false end.

(** No two neighbours of the list are calls of the same kind. *)
Fixpoint alternating (l : list notification) : bool :=
  match l with
  | [] => true
  | a :: t =>
      match t with
      | [] => true
      | b :: _ => negb (Bool.eqb (is_up_call a) (is_up_call b))
                  && alternating t
      end
  end.

(** What holds of a monitor created with coordinator [c0] and metrics
    [m0] after any calls, the coordinator having received [new] since. *)
Definition monitor_inv (c0 : Coordinator) (m0 : Metrics)
    (self : MonitoringProtocol) (new : list notification) : Prop :=
  coordinator self = Some (mkCoordinator (calls c0 ++ new))
  ∧ alternating new = true
  ∧ up_transitions_total (metrics self)
    + down_transitions_total (metrics self)
    = up_transitions_total m0 + down_transitions_total m0
      + Z.of_nat (length new)
  ∧ match up self with
    | None => firstCheck self = true ∧ new = []
    | Some b =>
        firstCheck self = false
        ∧ (∃ n, last new = Some n ∧ is_up_call n = b)
        ∧ status (metrics self) = Some (if b then 1 else 0)
    end.

(** A running monitor whose last verdict is Down. *)
Definition down_monitor : MonitoringProtocol :=
  mkMonitoringProtocol (Some (mkCoordinator [resultDown None])) (Some false)
    true false (Some 0%nat) (mkMetrics 0 1 0 2 (Some 0))
    (mkReactor 1 {[0%nat]}).

(** The number of times [c] occurs in [s]. *)
Fixpoint occurrences (c : ascii) (s : string) : nat :=
  match s with
  | EmptyString => 0
  | String a s' => (if Ascii.eqb a c then 1 else 0) + occurrences c s'
  end.

(** [struct.unpack('!8H', s)]: eight big-endian unsigned 16-bit values;
    [struct.error] unless [s] holds 16 bytes. *)
Fixpoint unpack_H_groups (s : list byte) : list Z :=
  match s with
  | hi :: lo :: rest => (ord hi * 256 + ord lo) :: unpack_H_groups rest
  | _ => []
  end.

Definition unpack_8H (s : list byte) : result (list Z) :=
  if Z.of_nat (length s) =? 16 then Ok (unpack_H_groups s)
  else Raise StructError.

(** [hex(n)[2:]] for the non-negative integers that [unpack] yields:
    lower-case digits, no leading zero, ["0"] for zero. *)
Definition hex_char (d : Z) : ascii :=
  if d <? 10 then ascii_of_N (Z.to_N (48 + d))
  else ascii_of_N (Z.to_N (87 + d)).

Fixpoint hex_go (fuel : nat) (n : Z) (acc : string) : string :=
  match fuel with
  | O => acc
  | S fuel' =>
      if n <=? 0 then acc
      else hex_go fuel' (n / 16) (String (hex_char (n mod 16)) acc)
  end.

Definition hex_digits (n : Z) : string :=
  if n <=? 0 then "0" else hex_go (S (Z.to_nat (Z.log2 n))) n "".

(** [IPPrefix.__str__]; for a family that is neither [AFI_INET] nor
    [AFI_INET6] the method returns [None], which [str()] turns into a
    [TypeError]. *)
Definition IPPrefix_str (self : IPPrefix) : result string :=
  if addressfamily self =? AFI_INET
  then Ok (String.concat "."
             (map (λ o, fmt_d (ord o)) (packed true self))
           +:+ "/" +:+ fmt_d (prefixlen self))
  else if addressfamily self =? AFI_INET6
  then groups ← unpack_8H (packed true self);
       Ok (String.concat ":" (map hex_digits groups)
           +:+ "/" +:+ fmt_d (prefixlen self))
  else Raise TypeError.

(** ** pybal/monitors/dnsquery.py: the failure callback

    [_queryFailed] looks at the Twisted failure only through
    [failure.check], [failure.trap] and [str]; a failure is modelled by
    the answers to those calls.  The clock and the ['%.3f'] rendering of
    a duration are taken as given. *)
Inductive query_type : Type := QueryA | QueryAAAA.

Record Query : Type := mkQuery {
  q_name : string;
  q_type : query_type
}.

Record Failure : Type := mkFailure {
  is_CancelledError : bool;
  is_DNSQueryTimeoutError : bool;
  is_DNSServerError : bool;
  is_DNSNameError : bool;
  is_DNSQueryRefusedError : bool;
  in_catchList : bool;
  failure_str : string
}.

Inductive log_level : Type := DEBUG | INFO | ERROR.

(** How a callback ends: it returns [None], it raises [TypeError], or
    [failure.trap] raises the failure again. *)
Inductive callback_end : Type :=
| ReturnsNone
| RaisesTypeError
| ReraisesFailure.

Section dnsquery.

Variable Time : Type.
(** [runtime.seconds() - self.checkStartTime] and ['%.3f' % duration]. *)
Variable elapsed : Time → Time → Time.
Variable fmt_3f : Time → string.
(** [dns.QUERY_TYPES]. *)
Variable QUERY_TYPES : query_type → string.

Record DNSQueryMonitoringProtocol : Type := mkDNSQuery {
  base : MonitoringProtocol;
  failOnNXDOMAIN : bool;
  checkStartTime : option Time;
  (** the values set on [request_duration_seconds], with their [result]
      label, in order *)
  request_duration_seconds : list (string * Time);
  (** the [report] calls, in order *)
  reports : list (string * log_level)
}.

Definition report (text : string) (level : log_level)
    (self : DNSQueryMonitoringProtocol) : DNSQueryMonitoringProtocol :=
  mkDNSQuery (base self) (failOnNXDOMAIN self) (checkStartTime self)
    (request_duration_seconds self) (reports self ++ [(text, level)]).

Definition with_base (m : MonitoringProtocol)
    (self : DNSQueryMonitoringProtocol) : DNSQueryMonitoringProtocol :=
  mkDNSQuery m (failOnNXDOMAIN self) (checkStartTime self)
    (request_duration_seconds self) (reports self).

Definition set_duration (label : string) (d : Time)
    (self : DNSQueryMonitoringProtocol) : DNSQueryMonitoringProtocol :=
  mkDNSQuery (base self) (failOnNXDOMAIN self) (checkStartTime self)
    (request_duration_seconds self ++ [(label, d)]) (reports self).

(** The tail of [_queryFailed], after [errorStr] is chosen. *)
Definition query_failed_with (errorStr : string) (failure : Failure)
    (now : Time) (self : DNSQueryMonitoringProtocol)
  : DNSQueryMonitoringProtocol * callback_end :=
  match checkStartTime self with
  | None => (self, RaisesTypeError)
  | Some start =>
      let duration := elapsed now start in
      let self := report ("DNS query failed, " +:+ fmt_3f duration +:+ " s")
                    ERROR self in
      let self := with_base (_resultDown (Some errorStr) (base self)) self in
      let self := set_duration "failed" duration self in
      (self, if in_catchList failure then ReturnsNone else ReraisesFailure)
  end.

Definition _queryFailed (failure : Failure) (query : Query) (now : Time)
    (self : DNSQueryMonitoringProtocol)
  : DNSQueryMonitoringProtocol * callback_end :=
  let queryStr := ", query: " +:+ q_name query +:+ " "
                  +:+ QUERY_TYPES (q_type query) in
  if is_CancelledError failure then (self, ReturnsNone)
  else if is_DNSQueryTimeoutError failure
  then query_failed_with ("DNS query timeout" +:+ queryStr) failure now self
  else if is_DNSServerError failure
  then query_failed_with ("DNS server error" +:+ queryStr) failure now self
  else if is_DNSNameError failure
  then
    let errorStr := q_name query +:+ " NXDOMAIN" in
    if negb (failOnNXDOMAIN self)
    then
      let self := report errorStr INFO self in
      let self := with_base (_resultUp (base self)) self in
      (self, ReturnsNone)
    else query_failed_with errorStr failure now self
  else if is_DNSQueryRefusedError failure
  then query_failed_with ("DNS query refused" +:+ queryStr) failure now self
  else query_failed_with (failure_str failure) failure now self.

(** [_checkFinished] *)
Definition _checkFinished (self : DNSQueryMonitoringProtocol)
  : DNSQueryMonitoringProtocol :=
  mkDNSQuery (base self) (failOnNXDOMAIN self) None
    (request_duration_seconds self) (reports self).

End dnsquery.

(** A DNS monitor in the middle of a check started at time 100, over
    the running monitor with verdict Up; times are integers here. *)
Definition dns_monitor : DNSQueryMonitoringProtocol Z :=
  mkDNSQuery Z up_monitor false (Some 100) [] [].

Definition nxdomain : Failure :=
  mkFailure false false false true false true "DNSNameError".

Definition refused : Failure :=
  mkFailure false false false false true true "DNSQueryRefusedError".

Definition query_a : Query := mkQuery "en.wikipedia.org" QueryA.

Definition query_type_name (t : query_type) : string :=
  match t with QueryA => "A" | QueryAAAA => "AAAA" end.

(** * Properties of pybal/ipvs.py *)

Section result_lemmas.
Context {A B : Type}.

Lemma mapM_result_total (f : A → result B) (l : list A) :
  (∀ x, x ∈ l → ∃ y, f x = Ok y) →
  ∃ ys, mapM f l = Ok ys ∧ Forall2 (λ x y, f x = Ok y) l ys.
Proof.
  induction l as [|x l IH]; intros Hf.
  - exists []. split; [reflexivity | constructor].
  - destruct (Hf x) as [y Hy]; [left |].
    destruct IH as (ys & Hys & Hall).
    { intros x' Hx'. apply Hf. by right. }
    exists (y :: ys). split; [| by constructor].
    cbn. rewrite Hy. cbn. rewrite Hys. reflexivity.
Qed.

End result_lemmas.

Lemma subCommandService_valid self :
  protocol self ∈ SVC_PROTOS → ∃ sub, subCommandService (service self) = Ok sub.
Proof.
  intros Hp. unfold subCommandService, service; cbn.
  assert (protocol self = "tcp" ∨ protocol self = "udp") as [-> | ->].
  { unfold SVC_PROTOS in Hp.
    apply elem_of_cons in Hp as [? | Hp]; [by left |].
    apply elem_of_cons in Hp as [? | Hp]; [by right |].
    by apply elem_of_nil in Hp. }
  - eexists. vm_compute protocol_flags. reflexivity.
  - eexists. reflexivity.
Qed.

Lemma commandAddServer_valid self server :
  protocol self ∈ SVC_PROTOS →
  ∃ cmd, commandAddServer (service self) server = Ok cmd.
Proof.
  intros [sub Hsub]%subCommandService_valid.
  unfold commandAddServer. rewrite Hsub. cbn.
  destruct (truthy_int (weight server)); eauto.
Qed.

Lemma commandEditServer_valid self server :
  protocol self ∈ SVC_PROTOS →
  ∃ cmd, commandEditServer (service self) server = Ok cmd.
Proof.
  intros [sub Hsub]%subCommandService_valid.
  unfold commandEditServer. rewrite Hsub. cbn.
  destruct (truthy_int (weight server)); eauto.
Qed.

Lemma commandRemoveServer_valid self server :
  protocol self ∈ SVC_PROTOS →
  ∃ cmd, commandRemoveServer (service self) server = Ok cmd.
Proof.
  intros [sub Hsub]%subCommandService_valid.
  unfold commandRemoveServer. rewrite Hsub. cbn. eauto.
Qed.

(** The constructor accepts only [tcp] and [udp], starts with no
    server installed and refuses one-packet scheduling on [tcp]. *)
Lemma LVSService_init_valid name svc cfg w self w' :
  LVSService_init name svc cfg w = Ok (self, w') →
  protocol self ∈ SVC_PROTOS ∧ scheduler self ∈ SVC_SCHEDULERS
  ∧ servers self = ∅ ∧ (ops self = true → protocol self = "udp").
Proof.
  destruct svc as [[[[proto addr] prt] sched] o]. unfold LVSService_init.
  case_bool_decide as Hp; cbn [negb orb]; [| discriminate].
  case_bool_decide as Hs; cbn [negb]; [| discriminate].
  case_bool_decide as Ht; cbn [andb].
  - destruct o; [discriminate |].
    destruct (createService _ _); [| discriminate]. cbn.
    intros [= <- _]. cbn. done.
  - destruct (createService _ _); [| discriminate]. cbn.
    intros [= <- _]. cbn. split_and!; try done.
    intros _. unfold SVC_PROTOS in Hp.
    apply elem_of_cons in Hp as [? | Hp]; [done |].
    apply elem_of_cons in Hp as [? | Hp]; [done |].
    by apply elem_of_nil in Hp.
Qed.

Example LVSService_init_test_run :
  ∃ w, LVSService_init "http" ("tcp", "127.0.0.1", 80, "rr", false)
         test_config test_world = Ok (test_service, w)
       ∧ last_cmdList w
         = Some ["-D -t 127.0.0.1:80"; "-A -t 127.0.0.1:80 -s rr"].
Proof. eexists. split; vm_compute; reflexivity. Qed.


(** The shape of a successful [assignServers]: the three comprehensions
    yield [adds], [edits] and [removes], the service keeps [newServers]
    and the concatenation goes to [modifyState]. *)
Lemma assignServers_Ok self newServers w adds edits removes :
  mapM (λ server, commandAddServer (service self) (deref w server))
    (elements (newServers ∖ servers self)) = Ok adds →
  mapM (λ server, commandEditServer (service self) (deref w server))
    (elements (newServers ∩ servers self)) = Ok edits →
  mapM (λ server, commandRemoveServer (service self) (deref w server))
    (elements (servers self ∖ newServers)) = Ok removes →
  assignServers self newServers w
  = Ok (set_servers newServers self,
        call_modifyState (adds ++ edits ++ removes) w).
Proof.
  intros Ha He Hr. unfold assignServers.
  rewrite Ha; cbn. rewrite He; cbn. rewrite Hr; cbn. reflexivity.
Qed.

Lemma last_cmdList_call cmdList w :
  last_cmdList (call_modifyState cmdList w) = Some cmdList.
Proof. unfold last_cmdList; cbn. apply last_snoc. Qed.



(** The run of the test suite's scenario: installed [{a, b}], desired
    [{b, c}]. *)
Example assignServers_test_run :
  last_cmdList <$> (snd <$> assignServers test_service_ab {[srv_b; srv_c]}
                              test_world)
  = Ok (Some ["-a -t 127.0.0.1:80 -r 10.0.0.3";
              "-e -t 127.0.0.1:80 -r b -w 25";
              "-d -t 127.0.0.1:80 -r a"]).
Proof. vm_compute. reflexivity. Qed.

(** C2 as stated fails: with server [a] desired, the second of two
    successive [assignServers] calls hands [modifyState] an edit command
    for [a], not an empty list. *)
Lemma assignServers_second_call_not_silent :
  ∃ self1 w1 self2 w2,
    assignServers test_service {[srv_a]} test_world = Ok (self1, w1)
    ∧ last_cmdList w1 = Some ["-a -t 127.0.0.1:80 -r a"]
    ∧ assignServers self1 {[srv_a]} w1 = Ok (self2, w2)
    ∧ last_cmdList w2 = Some ["-e -t 127.0.0.1:80 -r a"]
    ∧ last_cmdList w2 ≠ Some [].
Proof.
  eexists _, _, _, _.
  split; [vm_compute; reflexivity |].
  split; [vm_compute; reflexivity |].
  split; [vm_compute; reflexivity |].
  split; [vm_compute; reflexivity |].
  vm_compute. discriminate.
Qed.

(** C2, amended: two successive [assignServers] calls with the same
    desired set [D] both leave the installed set equal to [D]; the second
    call adds nothing and removes nothing, and hands [modifyState] exactly
    one edit command per server of [D] (so nothing when [D] is empty). *)
Theorem assignServers_twice self D w :
  protocol self ∈ SVC_PROTOS →
  ∃ self1 w1 self2 w2 (le : list loc) (edits : list string),
    assignServers self D w = Ok (self1, w1)
    ∧ servers self1 = D
    ∧ assignServers self1 D w1 = Ok (self2, w2)
    ∧ servers self2 = D
    ∧ last_cmdList w2 = Some edits
    ∧ NoDup le ∧ (∀ s, s ∈ le ↔ s ∈ D)
    ∧ Forall2 (λ s cmd,
        commandEditServer (service self) (deref w s) = Ok cmd) le edits
    ∧ (D = ∅ → edits = []).
Proof.
  intros Hp.
  destruct (mapM_result_total
    (λ server, commandAddServer (service self) (deref w server))
    (elements (D ∖ servers self))) as (adds & Ha & _).
  { intros; by apply commandAddServer_valid. }
  destruct (mapM_result_total
    (λ server, commandEditServer (service self) (deref w server))
    (elements (D ∩ servers self))) as (edits & He & _).
  { intros; by apply commandEditServer_valid. }
  destruct (mapM_result_total
    (λ server, commandRemoveServer (service self) (deref w server))
    (elements (servers self ∖ D))) as (removes & Hr & _).
  { intros; by apply commandRemoveServer_valid. }
  destruct (mapM_result_total
    (λ server, commandEditServer (service self) (deref w server))
    (elements D)) as (edits2 & He2 & Fe2).
  { intros; by apply commandEditServer_valid. }
  set (self1 := set_servers D self).
  set (w1 := call_modifyState (adds ++ edits ++ removes) w).
  exists self1, w1, (set_servers D self1), (call_modifyState edits2 w1),
    (elements D), edits2.
  split; [by apply assignServers_Ok |].
  split; [reflexivity |].
  split.
  { rewrite (assignServers_Ok self1 D w1 [] edits2 []).
    - by rewrite app_nil_r.
    - cbn. by rewrite difference_diag_L, elements_empty.
    - cbn. rewrite (idemp_L (∩) D). exact He2.
    - cbn. by rewrite difference_diag_L, elements_empty. }
  split; [reflexivity |].
  split; [apply last_cmdList_call |].
  split; [apply NoDup_elements |].
  split; [intros s; apply elem_of_elements |].
  split; [exact Fe2 |].
  intros ->. rewrite elements_empty in Fe2. by inversion Fe2.
Qed.

(** The theorem at the test service with [{a, b}] desired twice. *)
Lemma assignServers_twice_witness :
  protocol test_service ∈ SVC_PROTOS
  ∧ ∃ self1 w1 self2 w2 (le : list loc) (edits : list string),
    assignServers test_service {[srv_a; srv_b]} test_world = Ok (self1, w1)
    ∧ servers self1 = {[srv_a; srv_b]}
    ∧ assignServers self1 {[srv_a; srv_b]} w1 = Ok (self2, w2)
    ∧ servers self2 = {[srv_a; srv_b]}
    ∧ last_cmdList w2 = Some edits
    ∧ NoDup le ∧ (∀ s, s ∈ le ↔ s ∈ ({[srv_a; srv_b]} : gset loc))
    ∧ Forall2 (λ s cmd,
        commandEditServer (service test_service) (deref test_world s)
        = Ok cmd) le edits
    ∧ (({[srv_a; srv_b]} : gset loc) = ∅ → edits = []).
Proof.
  split; [left |].
  apply (assignServers_twice test_service {[srv_a; srv_b]} test_world).
  left.
Defined.



Example removeServer_test_run :
  removeServer test_service_ab srv_c test_world = Raise KeyError
  ∧ last_cmdList <$> (snd <$> removeServer test_service_ab srv_b test_world)
    = Ok (Some ["-d -t 127.0.0.1:80 -r b"]).
Proof. split; vm_compute; reflexivity. Qed.

(** C9: the add-service command for [('tcp', '2620::123', 443, 'rr',
    False)] is the literal ["-A -t [2620::123]:443 -s rr"], and the
    add-server command of a server with weight 25 is the add-server
    command of the same server without a weight followed by [" -w 25"]. *)
Theorem commandAddService_literal :
  commandAddService
    (mkServiceTuple "tcp" "2620::123" 443 (Some ("rr", Some false)))
  = Ok "-A -t [2620::123]:443 -s rr"
  ∧ (∀ service server,
       commandAddServer service (set_weight (Some 25) server)
       = (λ cmd, cmd +:+ " -w 25")
           <$> commandAddServer service (set_weight None server))
  ∧ commandAddServer (mkServiceTuple "tcp" "2620::123" 443 None)
      (mkServer "localhost" None None (Some 25) false)
    = Ok "-a -t [2620::123]:443 -r localhost -w 25".
Proof.
  split_and!.
  - vm_compute. reflexivity.
  - intros service server. unfold commandAddServer.
    destruct (subCommandService service) as [sub | e]; reflexivity.
  - vm_compute. reflexivity.
Qed.

(** C10: [assignServers] leaves every server object as it was, its
    [pooled] flag included; so a desired server that was not pooled is
    installed and still not pooled, and a dropped server that was pooled
    is no longer installed and still pooled. *)
Theorem assignServers_keeps_pooled self D w :
  protocol self ∈ SVC_PROTOS →
  ∃ self' w',
    assignServers self D w = Ok (self', w')
    ∧ heap w' = heap w
    ∧ (∀ l, pooled (deref w' l) = pooled (deref w l))
    ∧ (∀ l, l ∈ D → pooled (deref w l) = false →
            l ∈ servers self' ∧ pooled (deref w' l) = false)
    ∧ (∀ l, l ∈ servers self → (l ∉ D) → pooled (deref w l) = true →
            (l ∉ servers self') ∧ pooled (deref w' l) = true).
Proof.
  intros Hp.
  destruct (mapM_result_total
    (λ server, commandAddServer (service self) (deref w server))
    (elements (D ∖ servers self))) as (adds & Ha & _).
  { intros; by apply commandAddServer_valid. }
  destruct (mapM_result_total
    (λ server, commandEditServer (service self) (deref w server))
    (elements (D ∩ servers self))) as (edits & He & _).
  { intros; by apply commandEditServer_valid. }
  destruct (mapM_result_total
    (λ server, commandRemoveServer (service self) (deref w server))
    (elements (servers self ∖ D))) as (removes & Hr & _).
  { intros; by apply commandRemoveServer_valid. }
  eexists _, _. split; [by apply assignServers_Ok |].
  split_and!; [reflexivity | reflexivity | |]; cbn; intros l; auto.
Qed.

(** The theorem at installed [{a, b}] and desired [{b}]. *)
Lemma assignServers_keeps_pooled_witness :
  protocol test_service_ab ∈ SVC_PROTOS
  ∧ ∃ self' w',
    assignServers test_service_ab {[srv_b]} test_world = Ok (self', w')
    ∧ heap w' = heap test_world
    ∧ (∀ l, pooled (deref w' l) = pooled (deref test_world l))
    ∧ (∀ l, l ∈ ({[srv_b]} : gset loc) →
            pooled (deref test_world l) = false →
            l ∈ servers self' ∧ pooled (deref w' l) = false)
    ∧ (∀ l, l ∈ servers test_service_ab → (l ∉ ({[srv_b]} : gset loc)) →
            pooled (deref test_world l) = true →
            (l ∉ servers self') ∧ pooled (deref w' l) = true).
Proof.
  split; [left |].
  apply (assignServers_keeps_pooled test_service_ab {[srv_b]} test_world).
  left.
Defined.

(** After the reconcile of the witness, [b] is installed and its
    [pooled] flag is still [False]. *)
Example assignServers_pooled_disagrees :
  ∃ self' w',
    assignServers test_service_ab {[srv_b]} test_world = Ok (self', w')
    ∧ srv_b ∈ servers self' ∧ pooled (deref w' srv_b) = false.
Proof.
  eexists _, _. split; [vm_compute; reflexivity |].
  split; vm_compute; reflexivity.
Qed.

(** * Properties of pybal/monitor.py *)

Lemma MonitoringProtocol_init_state c m r :
  let self := MonitoringProtocol_init c m r in
  active self = false ∧ firstCheck self = true ∧ up self = None.
Proof. by cbn. Qed.

Lemma stop_inactive self : active (stop self) = false.
Proof. unfold stop. by destruct (_shutdownTriggerID self). Qed.

Lemma run_active self self' : run self = Ok self' → active self' = true.
Proof.
  unfold run. destruct (active self); [discriminate |].
  by intros [= <-].
Qed.

Lemma set_metrics_id self : set_metrics (metrics self) self = self.
Proof. by destruct self. Qed.

Lemma add_down_results_0 m : add_down_results 0 m = m.
Proof. destruct m; unfold add_down_results; cbn. f_equal. lia. Qed.

(** A [_resultDown] that changes nothing but the raw counter: the first
    check is done and the verdict is not Up. *)
Lemma _resultDown_quiet reason self :
  firstCheck self = false → up self ≠ Some true →
  _resultDown reason self
  = set_metrics (add_down_results 1 (metrics self)) self.
Proof.
  intros Hf Hup. unfold _resultDown; cbn. rewrite Hf.
  rewrite (bool_decide_eq_false_2 _ Hup), andb_false_r. reflexivity.
Qed.

Lemma resultDown_calls_quiet reasons self :
  firstCheck self = false → up self ≠ Some true →
  resultDown_calls reasons self
  = set_metrics
      (add_down_results (Z.of_nat (length reasons)) (metrics self)) self.
Proof.
  revert self. induction reasons as [|r rs IH]; intros self Hf Hup.
  - cbn. by rewrite add_down_results_0, set_metrics_id.
  - unfold resultDown_calls in *. cbn [fold_left].
    rewrite (_resultDown_quiet r self Hf Hup).
    rewrite IH by done.
    unfold set_metrics, add_down_results; cbn. do 2 f_equal. lia.
Qed.

(** C3: on a running monitor with an established Up verdict, [N]
    consecutive [_resultDown] calls (the first with [reason], then one per
    element of [reasons]) make one Down transition: the verdict is Down,
    [down_transitions_total] grows by one, the coordinator receives the
    single call [resultDown reason], and the [N - 1] later calls only add
    to [down_results_total], which grows by [N]. *)
Theorem resultDown_edge_triggered self reason reasons :
  active self = true → up self = Some true → firstCheck self = false →
  let N := Z.of_nat (length (reason :: reasons)) in
  let self1 := _resultDown reason self in
  let selfN := resultDown_calls (reason :: reasons) self in
  up selfN = Some false
  ∧ down_transitions_total (metrics selfN)
    = down_transitions_total (metrics self) + 1
  ∧ down_results_total (metrics selfN)
    = down_results_total (metrics self) + N
  ∧ (∀ c, coordinator self = Some c →
       ∃ c', coordinator selfN = Some c'
             ∧ calls c' = calls c ++ [resultDown reason])
  ∧ (coordinator self = None → coordinator selfN = None)
  ∧ up_transitions_total (metrics selfN) = up_transitions_total (metrics self)
  ∧ up_results_total (metrics selfN) = up_results_total (metrics self)
  ∧ status (metrics selfN) = Some 0
  ∧ selfN = set_metrics (add_down_results (N - 1) (metrics self1)) self1.
Proof.
  intros Ha Hup Hf N self1 selfN.
  assert (HselfN : selfN
    = set_metrics
        (add_down_results (Z.of_nat (length reasons)) (metrics self1)) self1).
  { subst selfN self1. unfold resultDown_calls; cbn [fold_left].
    apply resultDown_calls_quiet.
    - unfold _resultDown; cbn. by rewrite Ha, Hup.
    - unfold _resultDown; cbn. by rewrite Ha, Hup. }
  assert (Hself1 : self1
    = mkMonitoringProtocol (notify (resultDown reason) (coordinator self))
        (Some false) true false (_shutdownTriggerID self)
        (set_status 0 (inc_down_transitions (inc_down_results (metrics self))))
        (reactor self)).
  { subst self1. unfold _resultDown; cbn. by rewrite Ha, Hup. }
  rewrite HselfN, Hself1. subst N. cbn [length]. cbn -[Z.of_nat].
  split_and!; try reflexivity; try lia.
  - intros c ->. cbn. eauto.
  - by intros ->.
  - do 2 f_equal. lia.
Qed.

(** The theorem at a running monitor with verdict Up and four
    consecutive Down results. *)
Lemma resultDown_edge_triggered_witness :
  active up_monitor = true ∧ up up_monitor = Some true
  ∧ firstCheck up_monitor = false
  ∧ let reason := Some "timeout" in
    let reasons := [Some "timeout"; None; Some "refused"] in
    let N := Z.of_nat (length (reason :: reasons)) in
    let self1 := _resultDown reason up_monitor in
    let selfN := resultDown_calls (reason :: reasons) up_monitor in
    up selfN = Some false
    ∧ down_transitions_total (metrics selfN)
      = down_transitions_total (metrics up_monitor) + 1
    ∧ down_results_total (metrics selfN)
      = down_results_total (metrics up_monitor) + N
    ∧ (∀ c, coordinator up_monitor = Some c →
         ∃ c', coordinator selfN = Some c'
               ∧ calls c' = calls c ++ [resultDown reason])
    ∧ (coordinator up_monitor = None → coordinator selfN = None)
    ∧ up_transitions_total (metrics selfN)
      = up_transitions_total (metrics up_monitor)
    ∧ up_results_total (metrics selfN)
      = up_results_total (metrics up_monitor)
    ∧ status (metrics selfN) = Some 0
    ∧ selfN = set_metrics (add_down_results (N - 1) (metrics self1)) self1.
Proof.
  split; [reflexivity |]. split; [reflexivity |]. split; [reflexivity |].
  apply (resultDown_edge_triggered up_monitor (Some "timeout")
           [Some "timeout"; None; Some "refused"]); reflexivity.
Defined.

Example resultDown_four_times :
  let selfN := resultDown_calls
                 [Some "timeout"; Some "timeout"; None; Some "refused"]
                 up_monitor in
  coordinator selfN
  = Some (mkCoordinator [resultUp; resultDown (Some "timeout")])
  ∧ metrics selfN = mkMetrics 1 1 3 4 (Some 0).
Proof. split; vm_compute; reflexivity. Qed.

(** C4 as stated fails: a monitor that was never started is inactive,
    yet its first result sets the verdict and calls the coordinator. *)
Lemma inactive_first_result_transitions :
  active fresh_monitor = false
  ∧ firstCheck fresh_monitor = true
  ∧ up fresh_monitor = None
  ∧ up (_resultDown (Some "timeout") fresh_monitor) = Some false
  ∧ coordinator (_resultDown (Some "timeout") fresh_monitor)
    = Some (mkCoordinator [resultDown (Some "timeout")])
  ∧ up (_resultUp fresh_monitor) = Some true
  ∧ coordinator (_resultUp fresh_monitor)
    = Some (mkCoordinator [resultUp])
  ∧ ¬ (∀ self reason,
         active self = false →
         up (_resultDown reason self) = up self
         ∧ coordinator (_resultDown reason self) = coordinator self).
Proof.
  split_and!; try reflexivity.
  intros H. destruct (H fresh_monitor None eq_refl) as [Hup _].
  discriminate Hup.
Qed.

(** C4, amended: on an inactive monitor every [_resultUp] / [_resultDown]
    increments its raw result counter; once the first check is done
    ([firstCheck] false) that is all it does, verdict and coordinator are
    untouched; while [firstCheck] is still true the call is a transition:
    it sets the verdict and calls the coordinator although the monitor is
    inactive. *)
Theorem inactive_results self reason :
  active self = false →
  up_results_total (metrics (_resultUp self))
  = up_results_total (metrics self) + 1
  ∧ down_results_total (metrics (_resultDown reason self))
    = down_results_total (metrics self) + 1
  ∧ (firstCheck self = false →
     _resultUp self = set_metrics (inc_up_results (metrics self)) self
     ∧ _resultDown reason self
       = set_metrics (inc_down_results (metrics self)) self
     ∧ up (_resultUp self) = up self
     ∧ coordinator (_resultUp self) = coordinator self
     ∧ up (_resultDown reason self) = up self
     ∧ coordinator (_resultDown reason self) = coordinator self)
  ∧ (firstCheck self = true →
     up (_resultUp self) = Some true
     ∧ coordinator (_resultUp self) = notify resultUp (coordinator self)
     ∧ up (_resultDown reason self) = Some false
     ∧ coordinator (_resultDown reason self)
       = notify (resultDown reason) (coordinator self)).
Proof.
  intros Ha. unfold _resultUp, _resultDown; cbn. rewrite Ha; cbn.
  destruct (firstCheck self); cbn; split_and!; try done.
Qed.

(** The theorem at a monitor stopped after its first check. *)
Lemma inactive_results_witness :
  active stopped_monitor = false
  ∧ up_results_total (metrics (_resultUp stopped_monitor))
    = up_results_total (metrics stopped_monitor) + 1
  ∧ down_results_total (metrics (_resultDown None stopped_monitor))
    = down_results_total (metrics stopped_monitor) + 1
  ∧ (firstCheck stopped_monitor = false →
     _resultUp stopped_monitor
     = set_metrics (inc_up_results (metrics stopped_monitor)) stopped_monitor
     ∧ _resultDown None stopped_monitor
       = set_metrics (inc_down_results (metrics stopped_monitor))
           stopped_monitor
     ∧ up (_resultUp stopped_monitor) = up stopped_monitor
     ∧ coordinator (_resultUp stopped_monitor) = coordinator stopped_monitor
     ∧ up (_resultDown None stopped_monitor) = up stopped_monitor
     ∧ coordinator (_resultDown None stopped_monitor)
       = coordinator stopped_monitor)
  ∧ (firstCheck stopped_monitor = true →
     up (_resultUp stopped_monitor) = Some true
     ∧ coordinator (_resultUp stopped_monitor)
       = notify resultUp (coordinator stopped_monitor)
     ∧ up (_resultDown None stopped_monitor) = Some false
     ∧ coordinator (_resultDown None stopped_monitor)
       = notify (resultDown None) (coordinator stopped_monitor)).
Proof.
  split; [reflexivity |].
  apply (inactive_results stopped_monitor None). reflexivity.
Defined.

(** * Properties of pybal/bgp/ip.py *)


Section parse.
Variable int_ : Z → string → result Z.





(** More than 8 groups are refused. *)
Lemma pack_inet6_too_many prefix :
  8 < Z.of_nat (length (split ":" (adjust_colons prefix))) →
  pack_inet6 int_ prefix = Raise ValueError.
Proof.
  intros H. unfold pack_inet6. apply Z.ltb_lt in H. by rewrite H.
Qed.

End parse.



(** *** Comparison *)

Lemma ord_bounded b : 0 <= ord b <= 255.
Proof. unfold ord. pose proof (Byte.to_N_bounded b). lia. Qed.

Lemma ord_inj x y : ord x = ord y → x = y.
Proof.
  unfold ord. intros H%Z2N.inj_iff; [| lia..]. rewrite !N2Z.id in H.
  pose proof (Byte.of_to_N x) as Hx. rewrite H, Byte.of_to_N in Hx.
  congruence.
Qed.

Lemma ord_byte_of_Z z : ord (byte_of_Z z) = z mod 256.
Proof.
  unfold ord, byte_of_Z.
  pose proof (Z.mod_pos_bound z 256 ltac:(lia)) as Hb.
  destruct (Byte.of_N (Z.to_N (z mod 256))) as [y|] eqn:Hy.
  - cbn. apply Byte.to_of_N in Hy. rewrite Hy. lia.
  - apply Byte.of_N_None_iff in Hy. lia.
Qed.

Lemma bytes_compare_refl a : bytes_compare a a = Eq.
Proof. induction a as [|x a IH]; cbn; [done |]. by rewrite Z.compare_refl. Qed.

Lemma bytes_compare_Eq a b : bytes_compare a b = Eq → a = b.
Proof.
  revert b. induction a as [|x a IH]; intros [|y b]; cbn; try done.
  destruct (Z.compare_spec (ord x) (ord y)) as [He | |]; try done.
  intros H%IH. apply ord_inj in He. congruence.
Qed.

Lemma bytes_compare_antisym a b :
  bytes_compare b a = CompOpp (bytes_compare a b).
Proof.
  revert b. induction a as [|x a IH]; intros [|y b]; cbn; try done.
  rewrite (Z.compare_antisym (ord x) (ord y)).
  destruct (ord x ?= ord y); cbn; auto.
Qed.

Lemma bytes_compare_Lt_trans a b c :
  bytes_compare a b = Lt → bytes_compare b c = Lt → bytes_compare a c = Lt.
Proof.
  revert b c. induction a as [|x a IH]; intros [|y b] [|z c]; cbn; try done.
  destruct (Z.compare_spec (ord x) (ord y)) as [Hxy | Hxy | Hxy]; try done;
    destruct (Z.compare_spec (ord y) (ord z)) as [Hyz | Hyz | Hyz]; try done;
    intros H1 H2.
  - rewrite Hxy, Hyz, Z.compare_refl. eauto.
  - assert (ord x < ord z) as ->%Z.compare_lt_iff by lia. done.
  - assert (ord x < ord z) as ->%Z.compare_lt_iff by lia. done.
  - assert (ord x < ord z) as ->%Z.compare_lt_iff by lia. done.
Qed.

Lemma IPPrefix_gt_lt a b : IPPrefix_gt a b = IPPrefix_lt b a.
Proof.
  unfold IPPrefix_gt, IPPrefix_lt, bytes_gtb, bytes_ltb, bytes_eqb.
  rewrite (bytes_compare_antisym (prefix b) (prefix a)), Z.gtb_ltb.
  by destruct (bytes_compare (prefix b) (prefix a)).
Qed.

Lemma IPPrefix_lt_irrefl a : IPPrefix_lt a a = false.
Proof.
  unfold IPPrefix_lt, bytes_ltb, bytes_eqb. rewrite bytes_compare_refl.
  cbn. apply Z.ltb_irrefl.
Qed.

Lemma IPPrefix_lt_trans a b c :
  IPPrefix_lt a b = true → IPPrefix_lt b c = true → IPPrefix_lt a c = true.
Proof.
  unfold IPPrefix_lt, bytes_ltb, bytes_eqb.
  destruct (bytes_compare (prefix a) (prefix b)) eqn:Hab;
    destruct (bytes_compare (prefix b) (prefix c)) eqn:Hbc; cbn; try done.
  - apply bytes_compare_Eq in Hab, Hbc. rewrite Hab, Hbc, bytes_compare_refl.
    cbn. rewrite !Z.ltb_lt. lia.
  - apply bytes_compare_Eq in Hab. rewrite Hab, Hbc. done.
  - apply bytes_compare_Eq in Hbc. rewrite <- Hbc, Hab. done.
  - by rewrite (bytes_compare_Lt_trans _ _ _ Hab Hbc).
Qed.

Lemma ljust_full width s : width = Z.of_nat (length s) → ljust width s = s.
Proof.
  intros ->. unfold ljust. rewrite Z.sub_diag. cbn. apply app_nil_r.
Qed.

(** On prefixes whose packed bytes are full-width the operators are a
    strict total order keyed on (bytes, prefix length): exactly one of
    [<], [==], [>] holds. *)
Lemma IPPrefix_trichotomy_full_width a b :
  Z.of_nat (length (prefix a)) = _packedMaxLen a →
  Z.of_nat (length (prefix b)) = _packedMaxLen b →
  match bytes_compare (prefix a) (prefix b), prefixlen a ?= prefixlen b with
  | Lt, _ | Eq, Lt =>
      IPPrefix_lt a b = true ∧ IPPrefix_eq a b = false
      ∧ IPPrefix_gt a b = false
  | Eq, Eq =>
      IPPrefix_lt a b = false ∧ IPPrefix_eq a b = true
      ∧ IPPrefix_gt a b = false
  | Gt, _ | Eq, Gt =>
      IPPrefix_lt a b = false ∧ IPPrefix_eq a b = false
      ∧ IPPrefix_gt a b = true
  end.
Proof.
  intros Ha Hb.
  unfold IPPrefix_lt, IPPrefix_eq, IPPrefix_gt, packed,
    bytes_ltb, bytes_gtb, bytes_eqb.
  rewrite !ljust_full by done.
  destruct (bytes_compare (prefix a) (prefix b)); cbn;
    destruct (Z.compare_spec (prefixlen a) (prefixlen b)); cbn;
    rewrite ?andb_false_r; split_and!; lia.
Qed.

(** C5 at a failing input: ["10/8"] and ["10.0.0.0/8"] have the same
    family, the same prefix length and the same padded bytes; [==] holds
    between them, and so do [<] one way and [>] the other way, because
    [__lt__] and [__gt__] compare the unpadded bytes. *)
Theorem IPPrefix_lt_overlaps_eq :
  IPPrefix_init int_digits (ArgText "10/8") None = Ok short_ten
  ∧ IPPrefix_init int_digits (ArgText "10.0.0.0/8") None = Ok full_ten
  ∧ addressfamily short_ten = addressfamily full_ten
  ∧ prefixlen short_ten = prefixlen full_ten
  ∧ packed true short_ten = packed true full_ten
  ∧ IPPrefix_eq short_ten full_ten = true
  ∧ IPPrefix_lt short_ten full_ten = true
  ∧ IPPrefix_gt full_ten short_ten = true
  ∧ IPPrefix_le full_ten short_ten = true
  ∧ IPPrefix_ge short_ten full_ten = true.
Proof. split_and!; reflexivity. Qed.

(** *** Masking *)

Lemma ipToInt_pack_I v b fam len :
  pack_I v = Ok b → ipToInt (mkIPPrefix b len fam) = Ok v.
Proof.
  unfold pack_I. destruct (_ && _) eqn:Hr; [| discriminate].
  intros [= <-]. unfold ipToInt; cbn [prefix fold_left].
  rewrite !ord_byte_of_Z. f_equal.
  apply andb_true_iff in Hr as [H0%Z.leb_le H1%Z.ltb_lt].
  change (2 ^ 32) with 4294967296 in H1.
  change (2 ^ 24) with 16777216. change (2 ^ 16) with 65536.
  change (2 ^ 8) with 256.
  Z.to_euclidean_division_equations. lia.
Qed.

Lemma ipToInt_4_bounded p :
  length (prefix p) = 4%nat → ∃ v, ipToInt p = Ok v ∧ 0 <= v < 2 ^ 32.
Proof.
  destruct p as [[|b0 [|b1 [|b2 [|b3 [|? ?]]]]] len fam]; try done.
  intros _. eexists. split; [reflexivity |]. cbn [fold_left].
  pose proof (ord_bounded b0). pose proof (ord_bounded b1).
  pose proof (ord_bounded b2). pose proof (ord_bounded b3).
  change (2 ^ 32) with 4294967296. lia.
Qed.

(** For a full-width IPv4 prefix and a new length between 0 and 32,
    [mask] succeeds, keeps four bytes, clears the [32 - newlen] low
    address bits, keeps the others, and changes the stored length only
    when [shorten] is set. *)
Lemma mask_inet p newlen shorten :
  addressfamily p ≠ AFI_INET6 → length (prefix p) = 4%nat →
  0 <= newlen <= 32 →
  ∃ v p',
    ipToInt p = Ok v
    ∧ mask newlen shorten p = Ok p'
    ∧ length (prefix p') = 4%nat
    ∧ ipToInt p' = Ok (Z.shiftl (Z.shiftr v (32 - newlen)) (32 - newlen))
    ∧ (∀ v', ipToInt p' = Ok v' →
         (∀ i, 0 <= i < 32 - newlen → Z.testbit v' i = false)
         ∧ (∀ i, 32 - newlen <= i → Z.testbit v' i = Z.testbit v i))
    ∧ prefixlen p' = (if shorten then newlen else prefixlen p)
    ∧ addressfamily p' = addressfamily p.
Proof.
  intros Hfam Hlen Hn.
  destruct (ipToInt_4_bounded p Hlen) as (v & Hv & Hb).
  set (v' := Z.shiftl (Z.shiftr v (32 - newlen)) (32 - newlen)).
  assert (Hv' : 0 <= v' < 2 ^ 32).
  { subst v'. rewrite Z.shiftl_mul_pow2, Z.shiftr_div_pow2 by lia.
    assert (0 < 2 ^ (32 - newlen)) by (apply Z.pow_pos_nonneg; lia).
    pose proof (Z.mul_div_le v (2 ^ (32 - newlen)) ltac:(lia)).
    assert (0 <= v / 2 ^ (32 - newlen)) by (apply Z.div_pos; lia).
    nia. }
  destruct (pack_I v') as [b|e] eqn:Hpack.
  2:{ unfold pack_I in Hpack.
      destruct Hv' as [H1%Z.leb_le H2%Z.ltb_lt].
      rewrite H1, H2 in Hpack. discriminate. }
  exists v, (mkIPPrefix b (if shorten then newlen else prefixlen p)
               (addressfamily p)).
  assert (Hlenb : length b = 4%nat).
  { unfold pack_I in Hpack. destruct (_ && _); [| discriminate].
    by injection Hpack as <-. }
  split; [exact Hv |]. split.
  { unfold mask, _packedMaxLen. rewrite Hlen.
    apply Z.eqb_neq in Hfam. rewrite Hfam.
    change (Z.of_nat 4) with 4. change (4 * 8) with 32.
    change (negb (4 =? 4)) with false. cbv iota.
    rewrite Hv. unfold shift_right, shift_left.
    assert ((32 - newlen <? 0) = false) as -> by lia.
    cbn -[Z.shiftl Z.shiftr pack_I]. fold v'. rewrite Hpack. reflexivity. }
  split; [exact Hlenb |].
  rewrite (ipToInt_pack_I v' b _ _ Hpack).
  split; [reflexivity |]. split; [| done].
  intros ? [= <-]. subst v'. split; intros i Hi.
  - apply Z.shiftl_spec_low. lia.
  - rewrite Z.shiftl_spec, Z.shiftr_spec by lia. f_equal. lia.
Qed.

Example mask_inet_runs :
  mask 8 false host_10_1_2_3 = Ok (mkIPPrefix [x0a; x00; x00; x00] 32 AFI_INET)
  ∧ mask 0 true host_10_1_2_3 = Ok (mkIPPrefix [x00; x00; x00; x00] 0 AFI_INET)
  ∧ mask 32 true host_10_1_2_3 = Ok host_10_1_2_3.
Proof. split_and!; reflexivity. Qed.

(** C7 at a failing input: ["2620::/32"] holds sixteen bytes, the full
    width of its family, and [mask] raises [struct.error] on it, because
    the masked integer is packed with the 32-bit format; on ["::1/128"]
    [mask] returns four bytes instead of sixteen. *)
Theorem mask_inet6_breaks :
  IPPrefix_init int_digits (ArgText "2620::/32") None = Ok net_2620
  ∧ Z.of_nat (length (prefix net_2620)) = _packedMaxLen net_2620
  ∧ mask 16 false net_2620 = Raise StructError
  ∧ mask 32 true net_2620 = Raise StructError
  ∧ mask 128 false net_2620 = Raise StructError
  ∧ IPPrefix_init int_digits (ArgText "::1/128") None = Ok loopback6
  ∧ mask 128 false loopback6
    = Ok (mkIPPrefix [x00; x00; x00; x01] 128 AFI_INET6).
Proof. split_and!; vm_compute; reflexivity. Qed.

(** * Further properties of pybal/ipvs.py *)

Lemma protocol_flags_None p :
  protocol_flags !! p = None ↔ (p ∉ SVC_PROTOS).
Proof.
  unfold protocol_flags, SVC_PROTOS.
  destruct (decide (p = "tcp")) as [-> | Ht].
  { rewrite lookup_insert_eq. split; [done |]. intros H. destruct H. left. }
  rewrite lookup_insert_ne by done.
  destruct (decide (p = "udp")) as [-> | Hu].
  { rewrite lookup_insert_eq. split; [done |]. intros H. destruct H.
    right; left. }
  rewrite lookup_insert_ne, lookup_empty by done.
  split; [| done]. intros _ H.
  apply elem_of_cons in H as [? | H]; [done |].
  apply elem_of_cons in H as [? | H]; [done |].
  by apply elem_of_nil in H.
Qed.

Lemma subCommandService_cases service :
  (st_protocol service ∈ SVC_PROTOS
   ∧ ∃ sub, subCommandService service = Ok sub)
  ∨ ((st_protocol service ∉ SVC_PROTOS)
     ∧ subCommandService service = Raise KeyError).
Proof.
  unfold subCommandService.
  destruct (protocol_flags !! st_protocol service) as [flag|] eqn:Hf.
  - left. split; [| cbn; eauto].
    destruct (decide (st_protocol service ∈ SVC_PROTOS)) as [|Hn]; [done |].
    apply protocol_flags_None in Hn. congruence.
  - right. split; [by apply protocol_flags_None | reflexivity].
Qed.

(** X1: every command builder that describes a service fails in one way
    only: it raises [KeyError] exactly when the protocol of the service
    tuple is neither [tcp] nor [udp]; address, port, scheduler and server
    never make it fail. *)
Theorem command_builders_KeyError_iff service server :
  (subCommandService service = Raise KeyError
   ↔ (st_protocol service ∉ SVC_PROTOS))
  ∧ (commandRemoveService service = Raise KeyError
     ↔ (st_protocol service ∉ SVC_PROTOS))
  ∧ (commandAddService service = Raise KeyError
     ↔ (st_protocol service ∉ SVC_PROTOS))
  ∧ (commandRemoveServer service server = Raise KeyError
     ↔ (st_protocol service ∉ SVC_PROTOS))
  ∧ (commandAddServer service server = Raise KeyError
     ↔ (st_protocol service ∉ SVC_PROTOS))
  ∧ (commandEditServer service server = Raise KeyError
     ↔ (st_protocol service ∉ SVC_PROTOS))
  ∧ (st_protocol service ∈ SVC_PROTOS →
     ∃ sub rm add d a e,
       subCommandService service = Ok sub
       ∧ commandRemoveService service = Ok rm
       ∧ commandAddService service = Ok add
       ∧ commandRemoveServer service server = Ok d
       ∧ commandAddServer service server = Ok a
       ∧ commandEditServer service server = Ok e).
Proof.
  unfold commandRemoveService, commandAddService, commandRemoveServer,
    commandAddServer, commandEditServer.
  destruct (subCommandService_cases service) as [[Hin [sub ->]] | [Hn ->]];
    cbn.
  - destruct (st_rest service) as [[sched [[|]|]]|];
      destruct (truthy_int (weight server));
      split_and!;
      try (split; [discriminate | intros Hn; by destruct Hn]);
      intros _; do 6 eexists; split_and!; reflexivity.
  - split_and!; try (split; [done | reflexivity]).
    intros Hin. by destruct Hn.
Qed.



Lemma modifyState_one_batch cmdList m :
  one_batch cmdList m (modifyState cmdList m).
Proof. unfold one_batch, modifyState; cbn. by split_and!. Qed.

(** X3: each of [createService], [assignServers], [addServer] and
    [removeServer] that returns has called [modifyState] exactly once;
    with [DryRun] set nothing was written to [ipvsadm], otherwise that one
    command list was written; it was printed only with [Debug]; the two
    switches are left as they were. *)
Theorem operations_hand_one_batch self w :
  (∀ w', createService self w = Ok w' →
     ∃ cmdList, one_batch cmdList (ipvsManager w) (ipvsManager w'))
  ∧ (∀ D self' w', assignServers self D w = Ok (self', w') →
     ∃ cmdList, one_batch cmdList (ipvsManager w) (ipvsManager w'))
  ∧ (∀ server self' w', addServer self server w = Ok (self', w') →
     ∃ cmdList, one_batch cmdList (ipvsManager w) (ipvsManager w'))
  ∧ (∀ server self' w', removeServer self server w = Ok (self', w') →
     ∃ cmdList, one_batch cmdList (ipvsManager w) (ipvsManager w')).
Proof.
  split_and!.
  - intros w'. unfold createService.
    destruct (commandRemoveService _) as [rm|]; cbn; [| discriminate].
    destruct (commandAddService _) as [add|]; cbn; [| discriminate].
    intros [= <-]. eexists. apply modifyState_one_batch.
  - intros D self' w'. unfold assignServers.
    destruct (mapM
      (λ server, commandAddServer (service self) (deref w server))
      (elements (D ∖ servers self))) as [adds|]; cbn; [| discriminate].
    destruct (mapM
      (λ server, commandEditServer (service self) (deref w server))
      (elements (D ∩ servers self))) as [edits|]; cbn; [| discriminate].
    destruct (mapM
      (λ server, commandRemoveServer (service self) (deref w server))
      (elements (servers self ∖ D))) as [rms|]; cbn; [| discriminate].
    intros [= _ <-]. eexists. apply modifyState_one_batch.
  - intros server self' w'. unfold addServer.
    destruct (if bool_decide _ then _ else _) as [cmd|]; cbn;
      [| discriminate].
    intros [= _ <-]. eexists. apply modifyState_one_batch.
  - intros server self' w'. unfold removeServer.
    destruct (commandRemoveServer _ _) as [cmd|]; cbn; [| discriminate].
    case_bool_decide; [| discriminate].
    intros [= _ <-]. eexists. apply modifyState_one_batch.
Qed.

Example live_world_pipes :
  ∃ self' w',
    assignServers test_service_ab {[srv_b; srv_c]} live_world
    = Ok (self', w')
    ∧ piped (ipvsManager w')
      = [["-a -t 127.0.0.1:80 -r 10.0.0.3";
          "-e -t 127.0.0.1:80 -r b -w 25";
          "-d -t 127.0.0.1:80 -r a"]]
    ∧ printed (ipvsManager w') = piped (ipvsManager w').
Proof. eexists _, _. split_and!; vm_compute; reflexivity. Qed.

Lemma Forall2_result_length {A B} (f : A → result B) l ys :
  Forall2 (λ x y, f x = Ok y) l ys → length ys = length l.
Proof. intros H. symmetry. by eapply Forall2_length. Qed.



(** The builders read the address and the weight of a server and nothing
    else. *)
Lemma server_commands_ext service s1 s2 :
  address_used s1 = address_used s2 → weight_used s1 = weight_used s2 →
  commandAddServer service s1 = commandAddServer service s2
  ∧ commandEditServer service s1 = commandEditServer service s2
  ∧ commandRemoveServer service s1 = commandRemoveServer service s2.
Proof.
  unfold address_used, weight_used. intros Ha Hw.
  unfold commandAddServer, commandEditServer, commandRemoveServer,
    subCommandServer.
  rewrite Ha.
  destruct (truthy_int (weight s1)) eqn:H1,
    (truthy_int (weight s2)) eqn:H2.
  - by rewrite Hw.
  - destruct (weight s1); [discriminate Hw | discriminate H1].
  - destruct (weight s2); [discriminate Hw | discriminate H2].
  - done.
Qed.


Example addServer_twice_test_run :
  ∃ self1 w1 self2 w2,
    addServer test_service srv_c test_world = Ok (self1, w1)
    ∧ last_cmdList w1 = Some ["-a -t 127.0.0.1:80 -r 10.0.0.3"]
    ∧ addServer self1 srv_c w1 = Ok (self2, w2)
    ∧ last_cmdList w2 = Some ["-e -t 127.0.0.1:80 -r 10.0.0.3"].
Proof. eexists _, _, _, _. split_and!; vm_compute; reflexivity. Qed.

(** X6: pooling a server that is not installed and depooling it again
    gives the installed set back, leaves the server not pooled, hands over
    the add command and then the remove command of that server, and
    touches no other server. *)
Theorem addServer_removeServer self server w :
  protocol self ∈ SVC_PROTOS → server ∉ servers self →
  ∃ self1 w1 self2 w2 add rm,
    addServer self server w = Ok (self1, w1)
    ∧ removeServer self1 server w1 = Ok (self2, w2)
    ∧ servers self2 = servers self
    ∧ pooled (deref w1 server) = true
    ∧ pooled (deref w2 server) = false
    ∧ commandAddServer (service self) (deref w server) = Ok add
    ∧ commandRemoveServer (service self) (deref w server) = Ok rm
    ∧ handed (ipvsManager w2) = handed (ipvsManager w) ++ [[add]; [rm]]
    ∧ ∀ l, l ≠ server → deref w2 l = deref w l.
Proof.
  intros Hp Hnot.
  destruct (commandAddServer_valid self (deref w server) Hp) as [add Ha].
  destruct (commandRemoveServer_valid self (deref w server) Hp) as [rm Hr].
  set (self1 := set_servers (servers self ∪ {[server]}) self).
  set (w1 := store server (set_pooled true (deref w server))
               (call_modifyState [add] w)).
  assert (H1 : addServer self server w = Ok (self1, w1)).
  { unfold addServer. rewrite (bool_decide_eq_true_2 _ Hnot), Ha.
    reflexivity. }
  assert (Hd1 : deref w1 server = set_pooled true (deref w server)).
  { unfold deref, w1; cbn. by rewrite lookup_total_insert_eq. }
  assert (Hr1 : commandRemoveServer (service self1) (deref w1 server) = Ok rm).
  { rewrite Hd1. rewrite <- Hr.
    apply (server_commands_ext (service self)); reflexivity. }
  exists self1, w1. eexists _, _. exists add, rm.
  split; [exact H1 |]. split.
  { unfold removeServer. rewrite Hr1. cbn.
    rewrite bool_decide_eq_true_2; [reflexivity |].
    apply elem_of_union. right. by apply elem_of_singleton. }
  split_and!; try done.
  - cbn. apply set_eq. intros x.
    rewrite elem_of_difference, elem_of_union, elem_of_singleton.
    split; [tauto |]. intros Hx. split; [by left |]. by intros ->.
  - by rewrite Hd1.
  - unfold deref; cbn. by rewrite lookup_total_insert_eq.
  - cbn. by rewrite <- app_assoc.
  - intros l Hl. unfold deref; cbn.
    by rewrite !lookup_total_insert_ne.
Qed.

(** The round trip at the empty test service and server [c]. *)
Lemma addServer_removeServer_witness :
  protocol test_service ∈ SVC_PROTOS
  ∧ (srv_c ∉ servers test_service)
  ∧ ∃ self1 w1 self2 w2 add rm,
    addServer test_service srv_c test_world = Ok (self1, w1)
    ∧ removeServer self1 srv_c w1 = Ok (self2, w2)
    ∧ servers self2 = servers test_service
    ∧ pooled (deref w1 srv_c) = true
    ∧ pooled (deref w2 srv_c) = false
    ∧ commandAddServer (service test_service) (deref test_world srv_c)
      = Ok add
    ∧ commandRemoveServer (service test_service) (deref test_world srv_c)
      = Ok rm
    ∧ handed (ipvsManager w2)
      = handed (ipvsManager test_world) ++ [[add]; [rm]]
    ∧ ∀ l, l ≠ srv_c → deref w2 l = deref test_world l.
Proof.
  assert (Hn : srv_c ∉ servers test_service) by apply not_elem_of_empty.
  split; [left |]. split; [exact Hn |].
  apply (addServer_removeServer test_service srv_c test_world);
    [left | exact Hn].
Defined.


(** X8: the server commands depend on the server only through the
    address that [server.ip or server.host] selects and through the weight
    when it is truthy: an empty [ip] counts as no [ip], a weight of 0 as no
    weight, and [port] and [pooled] are never read. *)
Theorem server_commands_read_address_and_weight service s1 s2 :
  address_used s1 = address_used s2 → weight_used s1 = weight_used s2 →
  commandAddServer service s1 = commandAddServer service s2
  ∧ commandEditServer service s1 = commandEditServer service s2
  ∧ commandRemoveServer service s1 = commandRemoveServer service s2
  ∧ subCommandServer s1 = "-r " +:+ address_used s1.
Proof.
  intros Ha Hw.
  destruct (server_commands_ext service s1 s2 Ha Hw) as (H1 & H2 & H3).
  by split_and!.
Qed.

(** Two servers that differ in every attribute but agree on what is
    read. *)
Lemma server_commands_read_address_and_weight_witness :
  let service := mkServiceTuple "udp" "2620::123" 53 None in
  let s1 := mkServer "ns1" (Some "") (Some 53) (Some 0) true in
  let s2 := mkServer "ns1" None None None false in
  address_used s1 = address_used s2 ∧ weight_used s1 = weight_used s2
  ∧ commandAddServer service s1 = commandAddServer service s2
  ∧ commandEditServer service s1 = commandEditServer service s2
  ∧ commandRemoveServer service s1 = commandRemoveServer service s2
  ∧ subCommandServer s1 = "-r " +:+ address_used s1.
Proof.
  cbn zeta. split; [reflexivity |]. split; [reflexivity |].
  apply (server_commands_read_address_and_weight
           (mkServiceTuple "udp" "2620::123" 53 None)
           (mkServer "ns1" (Some "") (Some 53) (Some 0) true)
           (mkServer "ns1" None None None false)); reflexivity.
Defined.

(** * Further properties of pybal/monitor.py *)

(** X9: [run] fails, with [AssertionError], exactly on a monitor that is
    already active; on an inactive one it activates and registers a
    shutdown trigger, which the next [stop] removes again; [stop] always
    deactivates, is idempotent, and a stopped monitor can be run again;
    neither touches the verdict, [firstCheck], the metrics or the
    coordinator. *)
Theorem run_stop_lifecycle self :
  (run self = Raise AssertionError ↔ active self = true)
  ∧ (∀ e, run self = Raise e → e = AssertionError)
  ∧ (active self = false →
     ∃ self' id,
       run self = Ok self'
       ∧ active self' = true
       ∧ _shutdownTriggerID self' = Some id
       ∧ id ∈ triggers (reactor self')
       ∧ (id ∉ triggers (reactor (stop self')))
       ∧ up self' = up self ∧ firstCheck self' = firstCheck self
       ∧ metrics self' = metrics self ∧ coordinator self' = coordinator self
       ∧ run self' = Raise AssertionError)
  ∧ active (stop self) = false
  ∧ _shutdownTriggerID (stop self) = None
  ∧ stop (stop self) = stop self
  ∧ up (stop self) = up self ∧ firstCheck (stop self) = firstCheck self
  ∧ metrics (stop self) = metrics self
  ∧ coordinator (stop self) = coordinator self
  ∧ (∃ self', run (stop self) = Ok self').
Proof.
  unfold run, stop.
  destruct self as [c u a f t m r]; cbn.
  destruct a, t as [id|]; cbn; split_and!; try done;
    try (by split); try (by intros e [= <-]); try (intros _); eauto.
  - eexists _, _. split_and!; try reflexivity.
    + cbn. apply elem_of_union. right. by apply elem_of_singleton.
    + cbn. intros [_ Hn]%elem_of_difference. apply Hn.
      by apply elem_of_singleton.
  - eexists _, _. split_and!; try reflexivity.
    + cbn. apply elem_of_union. right. by apply elem_of_singleton.
    + cbn. intros [_ Hn]%elem_of_difference. apply Hn.
      by apply elem_of_singleton.
Qed.

Lemma alternating_snoc l n :
  alternating (l ++ [n])
  = alternating l
    && match last l with
       | Some m => negb (Bool.eqb (is_up_call m) (is_up_call n))
       | None => true
       end.
Proof.
  induction l as [|a [|b l] IH].
  - reflexivity.
  - cbn. by rewrite !andb_true_r.
  - change (alternating ((a :: b :: l) ++ [n]))
      with (negb (Bool.eqb (is_up_call a) (is_up_call b))
            && alternating ((b :: l) ++ [n])).
    rewrite IH.
    change (alternating (a :: b :: l))
      with (negb (Bool.eqb (is_up_call a) (is_up_call b))
            && alternating (b :: l)).
    change (last (a :: b :: l)) with (last (b :: l)).
    by rewrite andb_assoc.
Qed.

Lemma monitor_inv_init c0 m0 r0 :
  monitor_inv c0 m0 (MonitoringProtocol_init (Some c0) m0 r0) [].
Proof.
  unfold monitor_inv; cbn. rewrite app_nil_r.
  split_and!; try done.
  - by destruct c0.
  - lia.
Qed.

Lemma monitor_inv_step c0 m0 ev self new :
  monitor_inv c0 m0 self new →
  ∃ new', monitor_inv c0 m0 (step ev self) (new ++ new')
          ∧ (length new' <= 1)%nat
          ∧ (is_result ev = false → new' = []).
Proof.
  intros (Hc & Halt & Hcnt & Hup).
  destruct self as [c u a f t m r]; cbn in *. subst c.
  assert (Hquiet : ∀ a' t' r' m',
    up_transitions_total m' = up_transitions_total m →
    down_transitions_total m' = down_transitions_total m →
    status m' = status m →
    monitor_inv c0 m0
      (mkMonitoringProtocol (Some (mkCoordinator (calls c0 ++ new))) u a' f
         t' m' r') (new ++ [])).
  { intros a' t' r' m' H1 H2 H3. rewrite app_nil_r.
    unfold monitor_inv; cbn. rewrite H1, H2, H3. by split_and!. }
  assert (Hfire : ∀ n a' t' r' m',
    up_transitions_total m' + down_transitions_total m'
    = up_transitions_total m + down_transitions_total m + 1 →
    status m' = Some (if is_up_call n then 1 else 0) →
    match last new with
    | Some l => is_up_call l = negb (is_up_call n)
    | None => True
    end →
    monitor_inv c0 m0
      (mkMonitoringProtocol (Some (mkCoordinator ((calls c0 ++ new) ++ [n])))
         (Some (is_up_call n)) a' false t' m' r') (new ++ [n])).
  { intros n a' t' r' m' H1 H2 H3.
    unfold monitor_inv; cbn. split_and!.
    - by rewrite app_assoc.
    - rewrite alternating_snoc, Halt. cbn.
      destruct (last new) as [l|]; [| done]. rewrite H3.
      by destruct (is_up_call n).
    - rewrite length_app. cbn. lia.
    - done.
    - exists n. by rewrite last_snoc.
    - done. }
  destruct ev as [| | | reason]; cbn.
  - exists []. split_and!; [| cbn; lia | done].
    unfold run; cbn. destruct a; cbn; by apply Hquiet.
  - exists []. split_and!; [| cbn; lia | done].
    unfold stop; cbn. destruct t; cbn; by apply Hquiet.
  - unfold _resultUp; cbn.
    destruct u as [[|]|].
    + destruct Hup as (-> & Hlast & Hst).
      rewrite bool_decide_eq_false_2, andb_false_r by done. cbn.
      exists []. split_and!; [| cbn; lia | done]. by apply Hquiet.
    + destruct Hup as (-> & (n & Hlast & Hn) & Hst).
      rewrite bool_decide_eq_true_2, andb_true_r, orb_false_r by done.
      destruct a; cbn.
      * exists [resultUp]. split_and!; [| cbn; lia | done].
        apply (Hfire resultUp); cbn; [lia | done |]. by rewrite Hlast.
      * exists []. split_and!; [| cbn; lia | done]. by apply Hquiet.
    + destruct Hup as (-> & ->). rewrite orb_true_r. cbn.
      exists [resultUp]. split_and!; [| cbn; lia | done].
      apply (Hfire resultUp); cbn; [lia | done | done].
  - unfold _resultDown; cbn.
    destruct u as [[|]|].
    + destruct Hup as (-> & (n & Hlast & Hn) & Hst).
      rewrite bool_decide_eq_true_2, andb_true_r, orb_false_r by done.
      destruct a; cbn.
      * exists [resultDown reason]. split_and!; [| cbn; lia | done].
        apply (Hfire (resultDown reason)); cbn; [lia | done |].
        by rewrite Hlast.
      * exists []. split_and!; [| cbn; lia | done]. by apply Hquiet.
    + destruct Hup as (-> & Hlast & Hst).
      rewrite bool_decide_eq_false_2, andb_false_r by done. cbn.
      exists []. split_and!; [| cbn; lia | done]. by apply Hquiet.
    + destruct Hup as (-> & ->). rewrite orb_true_r. cbn.
      exists [resultDown reason]. split_and!; [| cbn; lia | done].
      apply (Hfire (resultDown reason)); cbn; [lia | done | done].
Qed.

Lemma monitor_inv_run_events c0 m0 evs self new :
  monitor_inv c0 m0 self new →
  ∃ new', monitor_inv c0 m0 (run_events evs self) (new ++ new')
          ∧ Z.of_nat (length new') <= count is_result evs.
Proof.
  revert self new. induction evs as [|ev evs IH]; intros self new Hinv.
  - exists []. rewrite app_nil_r. split; [done |]. unfold count; cbn. lia.
  - destruct (monitor_inv_step c0 m0 ev self new Hinv)
      as (n1 & Hinv1 & Hlen1 & Hnil).
    destruct (IH _ _ Hinv1) as (n2 & Hinv2 & Hlen2).
    exists (n1 ++ n2). rewrite app_assoc. split; [exact Hinv2 |].
    unfold count in *. cbn [List.filter].
    rewrite length_app.
    destruct (is_result ev) eqn:Hev; cbn [length].
    + lia.
    + rewrite (Hnil eq_refl). cbn. lia.
Qed.

Lemma step_raw_counters ev self :
  up_results_total (metrics (step ev self))
  = up_results_total (metrics self) + (if is_up_result ev then 1 else 0)
  ∧ down_results_total (metrics (step ev self))
    = down_results_total (metrics self)
      + (if is_down_result ev then 1 else 0).
Proof.
  destruct ev; cbn.
  - unfold run. destruct (active self); cbn; lia.
  - unfold stop. destruct (_shutdownTriggerID self); cbn; lia.
  - unfold _resultUp; cbn. destruct (_ || _); cbn; lia.
  - unfold _resultDown; cbn. destruct (_ || _); cbn; lia.
Qed.

(** X10: whatever calls are made on a monitor, in whatever state, the raw
    counters count every result: [up_results_total] grows by the number of
    [_resultUp] calls and [down_results_total] by the number of
    [_resultDown] calls, whether or not the monitor is active. *)
Theorem raw_counters_count_every_result evs self :
  up_results_total (metrics (run_events evs self))
  = up_results_total (metrics self) + count is_up_result evs
  ∧ down_results_total (metrics (run_events evs self))
    = down_results_total (metrics self) + count is_down_result evs.
Proof.
  revert self. induction evs as [|ev evs IH]; intros self.
  - unfold count; cbn. lia.
  - unfold run_events in *. cbn [fold_left].
    destruct (IH (step ev self)) as [IHu IHd].
    destruct (step_raw_counters ev self) as [Hu Hd].
    rewrite IHu, IHd, Hu, Hd. unfold count. cbn [List.filter].
    destruct ev; cbn [is_up_result is_down_result length]; lia.
Qed.

(** X11: notification is edge-triggered for every history.  After any
    calls on a monitor created with a coordinator, the calls the
    coordinator received from it alternate between [resultUp] and
    [resultDown]; there is no verdict exactly as long as there was no
    call; otherwise the verdict is the kind of the last call and the
    status gauge is 1 for Up and 0 for Down; the two transition counters
    together grew by the number of calls, which is at most the number of
    results. *)
Theorem notifications_alternate c0 m0 r0 evs :
  let self := run_events evs (MonitoringProtocol_init (Some c0) m0 r0) in
  ∃ new,
    coordinator self = Some (mkCoordinator (calls c0 ++ new))
    ∧ alternating new = true
    ∧ up_transitions_total (metrics self)
      + down_transitions_total (metrics self)
      = up_transitions_total m0 + down_transitions_total m0
        + Z.of_nat (length new)
    ∧ Z.of_nat (length new) <= count is_result evs
    ∧ (up self = None ↔ new = [])
    ∧ (up self = None → firstCheck self = true)
    ∧ (∀ b, up self = Some b →
         firstCheck self = false
         ∧ (∃ n, last new = Some n ∧ is_up_call n = b)
         ∧ status (metrics self) = Some (if b then 1 else 0)).
Proof.
  cbn zeta.
  destruct (monitor_inv_run_events c0 m0 evs _ [] (monitor_inv_init c0 m0 r0))
    as (new & (Hc & Halt & Hcnt & Hup) & Hlen).
  cbn [app] in *. exists new. split_and!; try done.
  - destruct (up _) as [b|]; [| by destruct Hup].
    destruct Hup as (_ & (n & Hl & _) & _).
    split; [done |]. intros ->. discriminate Hl.
  - intros Hn. rewrite Hn in Hup. by destruct Hup.
  - intros b Hb. by rewrite Hb in Hup.
Qed.

Example notifications_alternate_run :
  let self := run_events
                [EvResultDown None; EvRun; EvResultDown None; EvResultUp;
                 EvResultUp; EvStop; EvResultDown (Some "late"); EvRun;
                 EvResultDown (Some "refused")]
                fresh_monitor in
  coordinator self
  = Some (mkCoordinator
            [resultDown None; resultUp; resultDown (Some "refused")])
  ∧ metrics self = mkMetrics 1 2 2 4 (Some 0).
Proof. split; vm_compute; reflexivity. Qed.

Lemma _resultUp_quiet self :
  firstCheck self = false → up self ≠ Some false →
  _resultUp self = set_metrics (inc_up_results (metrics self)) self.
Proof.
  intros Hf Hup. unfold _resultUp; cbn. rewrite Hf.
  rewrite (bool_decide_eq_false_2 _ Hup), andb_false_r. reflexivity.
Qed.

Lemma resultUp_iter_quiet n self :
  firstCheck self = false → up self = Some true →
  let selfN := Nat.iter n _resultUp self in
  up selfN = Some true ∧ firstCheck selfN = false
  ∧ active selfN = active self
  ∧ coordinator selfN = coordinator self
  ∧ up_results_total (metrics selfN)
    = up_results_total (metrics self) + Z.of_nat n
  ∧ up_transitions_total (metrics selfN) = up_transitions_total (metrics self)
  ∧ down_results_total (metrics selfN) = down_results_total (metrics self)
  ∧ down_transitions_total (metrics selfN)
    = down_transitions_total (metrics self)
  ∧ status (metrics selfN) = status (metrics self).
Proof.
  intros Hf Hup. cbn zeta. induction n as [|n IH].
  - cbn. split_and!; try done. lia.
  - rewrite Nat.iter_succ.
    destruct IH as (Hu & Hfc & Ha & Hc & Hur & Hut & Hdr & Hdt & Hs).
    rewrite _resultUp_quiet; [| done | by rewrite Hu].
    cbn. split_and!; try done. lia.
Qed.

(** X12: on a running monitor whose verdict is Down, [n + 1] consecutive
    [_resultUp] calls make one Up transition: the verdict is Up, the
    gauge is 1, [up_transitions_total] grows by one, the coordinator gets
    one [resultUp] call, and [up_results_total] grows by [n + 1]. *)
Theorem resultUp_edge_triggered self n :
  active self = true → up self = Some false → firstCheck self = false →
  let selfN := Nat.iter (S n) _resultUp self in
  up selfN = Some true
  ∧ status (metrics selfN) = Some 1
  ∧ up_transitions_total (metrics selfN)
    = up_transitions_total (metrics self) + 1
  ∧ up_results_total (metrics selfN)
    = up_results_total (metrics self) + Z.of_nat (S n)
  ∧ down_transitions_total (metrics selfN)
    = down_transitions_total (metrics self)
  ∧ down_results_total (metrics selfN) = down_results_total (metrics self)
  ∧ coordinator selfN = notify resultUp (coordinator self).
Proof.
  intros Ha Hup Hf. cbn zeta.
  rewrite Nat.iter_succ_r.
  assert (Hself1 : _resultUp self
    = mkMonitoringProtocol (notify resultUp (coordinator self))
        (Some true) true false (_shutdownTriggerID self)
        (set_status 1 (inc_up_transitions (inc_up_results (metrics self))))
        (reactor self)).
  { unfold _resultUp; cbn. by rewrite Ha, Hup. }
  rewrite Hself1.
  match goal with |- context [Nat.iter n _resultUp ?m] =>
    destruct (resultUp_iter_quiet n m eq_refl eq_refl)
      as (Hu & _ & _ & Hc & Hur & Hut & Hdr & Hdt & Hs)
  end.
  rewrite Hu, Hc, Hur, Hut, Hdr, Hdt, Hs. cbn.
  split_and!; try reflexivity; lia.
Qed.

(** The theorem at a running monitor with verdict Down and three
    consecutive Up results. *)
Lemma resultUp_edge_triggered_witness :
  active down_monitor = true ∧ up down_monitor = Some false
  ∧ firstCheck down_monitor = false
  ∧ let selfN := Nat.iter 3 _resultUp down_monitor in
    up selfN = Some true
    ∧ status (metrics selfN) = Some 1
    ∧ up_transitions_total (metrics selfN)
      = up_transitions_total (metrics down_monitor) + 1
    ∧ up_results_total (metrics selfN)
      = up_results_total (metrics down_monitor) + Z.of_nat 3
    ∧ down_transitions_total (metrics selfN)
      = down_transitions_total (metrics down_monitor)
    ∧ down_results_total (metrics selfN)
      = down_results_total (metrics down_monitor)
    ∧ coordinator selfN = notify resultUp (coordinator down_monitor).
Proof.
  split; [reflexivity |]. split; [reflexivity |]. split; [reflexivity |].
  apply (resultUp_edge_triggered down_monitor 2); reflexivity.
Defined.

(** * Further properties of pybal/bgp/ip.py *)

Lemma bytes_eqb_eq a b : bytes_eqb a b = true ↔ a = b.
Proof.
  unfold bytes_eqb. split.
  - destruct (bytes_compare a b) eqn:H; try discriminate.
    intros _. by apply bytes_compare_Eq.
  - intros ->. by rewrite bytes_compare_refl.
Qed.

Lemma IPPrefix_eq_iff a b :
  IPPrefix_eq a b = true
  ↔ prefixlen a = prefixlen b ∧ packed true a = packed true b.
Proof.
  unfold IPPrefix_eq. rewrite andb_true_iff, Z.eqb_eq, bytes_eqb_eq. done.
Qed.

Lemma ljust_length width s :
  Z.of_nat (length (ljust width s)) = Z.max width (Z.of_nat (length s)).
Proof. unfold ljust. rewrite length_app, repeat_length. lia. Qed.

Lemma ljust_idemp width s : ljust width (ljust width s) = ljust width s.
Proof.
  unfold ljust at 1. pose proof (ljust_length width s).
  replace (Z.to_nat (width - Z.of_nat (length (ljust width s)))) with 0%nat
    by lia.
  cbn. apply app_nil_r.
Qed.

(** X13: [==] is an equivalence relation on prefixes: it holds exactly
    when the prefix lengths are equal and the bytes padded to the family
    width are equal; [!=] is its negation; a prefix equals the prefix that
    stores its padded bytes, so trailing zero bytes up to the full width
    never matter. *)
Theorem IPPrefix_eq_equivalence :
  (∀ a, IPPrefix_eq a a = true)
  ∧ (∀ a b, IPPrefix_eq a b = IPPrefix_eq b a)
  ∧ (∀ a b c, IPPrefix_eq a b = true → IPPrefix_eq b c = true →
              IPPrefix_eq a c = true)
  ∧ (∀ a b, IPPrefix_eq a b = true
            ↔ prefixlen a = prefixlen b ∧ packed true a = packed true b)
  ∧ (∀ a b, IPPrefix_ne a b = negb (IPPrefix_eq a b))
  ∧ (∀ a, IPPrefix_eq a
            (mkIPPrefix (packed true a) (prefixlen a) (addressfamily a))
          = true).
Proof.
  split_and!.
  - intros a. by apply IPPrefix_eq_iff.
  - intros a b. apply eq_true_iff_eq. rewrite !IPPrefix_eq_iff.
    split; intros [-> ->]; done.
  - intros a b c [H1 H2]%IPPrefix_eq_iff [H3 H4]%IPPrefix_eq_iff.
    apply IPPrefix_eq_iff. split; congruence.
  - apply IPPrefix_eq_iff.
  - reflexivity.
  - intros a. apply IPPrefix_eq_iff. split; [reflexivity |].
    unfold packed, _packedMaxLen. cbn [prefix addressfamily].
    by rewrite ljust_idemp.
Qed.

(** X14: [<] is a strict order on prefixes keyed on the stored bytes and
    then the prefix length: irreflexive, transitive, asymmetric, and two
    prefixes unrelated by [<] either way have the same stored bytes and
    the same prefix length; [>] is the converse of [<]. *)
Theorem IPPrefix_lt_strict_order :
  (∀ a, IPPrefix_lt a a = false)
  ∧ (∀ a b c, IPPrefix_lt a b = true → IPPrefix_lt b c = true →
              IPPrefix_lt a c = true)
  ∧ (∀ a b, IPPrefix_lt a b = true → IPPrefix_lt b a = false)
  ∧ (∀ a b, IPPrefix_lt a b = false → IPPrefix_lt b a = false →
            prefix a = prefix b ∧ prefixlen a = prefixlen b)
  ∧ (∀ a b, IPPrefix_gt a b = IPPrefix_lt b a).
Proof.
  split_and!.
  - apply IPPrefix_lt_irrefl.
  - apply IPPrefix_lt_trans.
  - intros a b Hab. destruct (IPPrefix_lt b a) eqn:Hba; [| done].
    pose proof (IPPrefix_lt_trans _ _ _ Hab Hba) as H.
    by rewrite IPPrefix_lt_irrefl in H.
  - intros a b. unfold IPPrefix_lt, bytes_ltb, bytes_eqb.
    rewrite (bytes_compare_antisym (prefix a) (prefix b)).
    destruct (bytes_compare (prefix a) (prefix b)) eqn:Hc; cbn;
      try discriminate.
    intros H1%Z.ltb_ge H2%Z.ltb_ge.
    split; [by apply bytes_compare_Eq | lia].
  - apply IPPrefix_gt_lt.
Qed.

(** X15: on prefixes whose stored bytes are full-width for their family
    exactly one of [<], [==], [>] holds, [<=] is the negation of [>],
    [>=] is the negation of [<], and [==] means equal stored bytes and
    equal prefix length. *)
Theorem IPPrefix_full_width_total_order a b :
  Z.of_nat (length (prefix a)) = _packedMaxLen a →
  Z.of_nat (length (prefix b)) = _packedMaxLen b →
  ((IPPrefix_lt a b = true ∧ IPPrefix_eq a b = false
    ∧ IPPrefix_gt a b = false)
   ∨ (IPPrefix_lt a b = false ∧ IPPrefix_eq a b = true
      ∧ IPPrefix_gt a b = false)
   ∨ (IPPrefix_lt a b = false ∧ IPPrefix_eq a b = false
      ∧ IPPrefix_gt a b = true))
  ∧ IPPrefix_le a b = negb (IPPrefix_gt a b)
  ∧ IPPrefix_ge a b = negb (IPPrefix_lt a b)
  ∧ (IPPrefix_eq a b = true
     ↔ prefix a = prefix b ∧ prefixlen a = prefixlen b).
Proof.
  intros Ha Hb.
  pose proof (IPPrefix_trichotomy_full_width a b Ha Hb) as H.
  assert (Heq : IPPrefix_eq a b = true
                ↔ prefix a = prefix b ∧ prefixlen a = prefixlen b).
  { rewrite IPPrefix_eq_iff. unfold packed. rewrite !ljust_full by done.
    tauto. }
  unfold IPPrefix_le, IPPrefix_ge.
  destruct (bytes_compare (prefix a) (prefix b));
    destruct (prefixlen a ?= prefixlen b);
    destruct H as (-> & He & ->); rewrite He in *; cbn;
    split_and!; auto.
Qed.

(** The theorem at ["10.0.0.0/8"] and the host ["10.1.2.3/32"]. *)
Lemma IPPrefix_full_width_total_order_witness :
  Z.of_nat (length (prefix full_ten)) = _packedMaxLen full_ten
  ∧ Z.of_nat (length (prefix host_10_1_2_3)) = _packedMaxLen host_10_1_2_3
  ∧ ((IPPrefix_lt full_ten host_10_1_2_3 = true
      ∧ IPPrefix_eq full_ten host_10_1_2_3 = false
      ∧ IPPrefix_gt full_ten host_10_1_2_3 = false)
     ∨ (IPPrefix_lt full_ten host_10_1_2_3 = false
        ∧ IPPrefix_eq full_ten host_10_1_2_3 = true
        ∧ IPPrefix_gt full_ten host_10_1_2_3 = false)
     ∨ (IPPrefix_lt full_ten host_10_1_2_3 = false
        ∧ IPPrefix_eq full_ten host_10_1_2_3 = false
        ∧ IPPrefix_gt full_ten host_10_1_2_3 = true))
  ∧ IPPrefix_le full_ten host_10_1_2_3
    = negb (IPPrefix_gt full_ten host_10_1_2_3)
  ∧ IPPrefix_ge full_ten host_10_1_2_3
    = negb (IPPrefix_lt full_ten host_10_1_2_3)
  ∧ (IPPrefix_eq full_ten host_10_1_2_3 = true
     ↔ prefix full_ten = prefix host_10_1_2_3
       ∧ prefixlen full_ten = prefixlen host_10_1_2_3).
Proof.
  split; [reflexivity |]. split; [reflexivity |].
  apply (IPPrefix_full_width_total_order full_ten host_10_1_2_3);
    reflexivity.
Defined.

(** The theorem [mask_inet] at the host ["10.1.2.3/32"] masked to 8
    bits. *)
Lemma mask_inet_witness :
  addressfamily host_10_1_2_3 ≠ AFI_INET6
  ∧ length (prefix host_10_1_2_3) = 4%nat
  ∧ 0 <= 8 <= 32
  ∧ ∃ v p',
    ipToInt host_10_1_2_3 = Ok v
    ∧ mask 8 false host_10_1_2_3 = Ok p'
    ∧ length (prefix p') = 4%nat
    ∧ ipToInt p' = Ok (Z.shiftl (Z.shiftr v (32 - 8)) (32 - 8))
    ∧ (∀ v', ipToInt p' = Ok v' →
         (∀ i, 0 <= i < 32 - 8 → Z.testbit v' i = false)
         ∧ (∀ i, 32 - 8 <= i → Z.testbit v' i = Z.testbit v i))
    ∧ prefixlen p' = (if false then 8 else prefixlen host_10_1_2_3)
    ∧ addressfamily p' = addressfamily host_10_1_2_3.
Proof.
  assert (H1 : addressfamily host_10_1_2_3 ≠ AFI_INET6) by discriminate.
  assert (H2 : 0 <= 8 <= 32) by lia.
  split; [exact H1 |]. split; [reflexivity |]. split; [exact H2 |].
  apply (mask_inet host_10_1_2_3 8 false H1 eq_refl H2).
Defined.

Lemma shift_clear_testbit x k i :
  0 <= k → 0 <= i →
  Z.testbit (Z.shiftl (Z.shiftr x k) k) i
  = if i <? k then false else Z.testbit x i.
Proof.
  intros Hk Hi. destruct (Z.ltb_spec i k).
  - apply Z.shiftl_spec_low. lia.
  - rewrite Z.shiftl_spec, Z.shiftr_spec by lia. f_equal. lia.
Qed.

Lemma shift_clear_bounded v k :
  0 <= k → 0 <= v < 2 ^ 32 →
  0 <= Z.shiftl (Z.shiftr v k) k < 2 ^ 32.
Proof.
  intros Hk Hv. rewrite Z.shiftl_mul_pow2, Z.shiftr_div_pow2 by lia.
  assert (0 < 2 ^ k) by (apply Z.pow_pos_nonneg; lia).
  pose proof (Z.mul_div_le v (2 ^ k) ltac:(lia)).
  assert (0 <= v / 2 ^ k) by (apply Z.div_pos; lia).
  nia.
Qed.

Lemma pack_I_Ok v :
  0 <= v < 2 ^ 32 → ∃ b, pack_I v = Ok b ∧ length b = 4%nat.
Proof.
  intros [H1%Z.leb_le H2%Z.ltb_lt]. unfold pack_I. rewrite H1, H2. cbn.
  eauto.
Qed.

(** What [mask] computes on a full-width IPv4 prefix for any new length
    up to 32. *)
Lemma mask_inet_Ok p newlen shorten :
  addressfamily p ≠ AFI_INET6 → length (prefix p) = 4%nat → newlen <= 32 →
  ∃ v b,
    ipToInt p = Ok v ∧ 0 <= v < 2 ^ 32
    ∧ pack_I (Z.shiftl (Z.shiftr v (32 - newlen)) (32 - newlen)) = Ok b
    ∧ length b = 4%nat
    ∧ mask newlen shorten p
      = Ok (mkIPPrefix b (if shorten then newlen else prefixlen p)
              (addressfamily p)).
Proof.
  intros Hfam Hlen Hn.
  destruct (ipToInt_4_bounded p Hlen) as (v & Hv & Hb).
  destruct (pack_I_Ok (Z.shiftl (Z.shiftr v (32 - newlen)) (32 - newlen)))
    as (b & Hpack & Hlb).
  { apply shift_clear_bounded; lia. }
  exists v, b. split_and!; try done; try lia.
  unfold mask, _packedMaxLen. rewrite Hlen.
  apply Z.eqb_neq in Hfam. rewrite Hfam.
  change (Z.of_nat 4) with 4. change (4 * 8) with 32.
  change (negb (4 =? 4)) with false. cbv iota.
  rewrite Hv. unfold shift_right, shift_left.
  assert ((32 - newlen <? 0) = false) as -> by lia.
  cbn -[Z.shiftl Z.shiftr pack_I]. rewrite Hpack. reflexivity.
Qed.

(** X17: masking a full-width IPv4 prefix twice is masking it once to
    the shorter of the two lengths; in particular [mask] is idempotent. *)
Theorem mask_inet_compose p n m s1 s2 :
  addressfamily p ≠ AFI_INET6 → length (prefix p) = 4%nat →
  0 <= n <= 32 → 0 <= m <= 32 →
  ∃ p1 p2 p3,
    mask n s1 p = Ok p1
    ∧ mask m s2 p1 = Ok p2
    ∧ mask (Z.min n m) s1 p = Ok p3
    ∧ prefix p2 = prefix p3
    ∧ (n = m → mask n s1 p1 = Ok p1).
Proof.
  intros Hfam Hlen Hn Hm.
  destruct (mask_inet_Ok p n s1 Hfam Hlen ltac:(lia))
    as (v & b1 & Hv & Hvb & Hp1 & Hl1 & Hm1).
  set (p1 := mkIPPrefix b1 (if s1 then n else prefixlen p) (addressfamily p)).
  assert (Hv1 : ipToInt p1 = Ok (Z.shiftl (Z.shiftr v (32 - n)) (32 - n)))
    by by apply ipToInt_pack_I.
  assert (Hshift : ∀ k,
    0 <= k <= 32 →
    Z.shiftl (Z.shiftr (Z.shiftl (Z.shiftr v (32 - n)) (32 - n)) (32 - k))
      (32 - k)
    = Z.shiftl (Z.shiftr v (32 - Z.min n k)) (32 - Z.min n k)).
  { intros k Hk. apply Z.bits_inj'. intros i Hi.
    rewrite !shift_clear_testbit by lia.
    destruct (Z.ltb_spec i (32 - k)), (Z.ltb_spec i (32 - n)),
      (Z.ltb_spec i (32 - Z.min n k)); try reflexivity; lia. }
  assert (Hagain : ∀ k s,
    0 <= k <= 32 →
    ∃ b, pack_I (Z.shiftl (Z.shiftr v (32 - Z.min n k)) (32 - Z.min n k))
         = Ok b
         ∧ mask k s p1
           = Ok (mkIPPrefix b (if s then k else prefixlen p1)
                   (addressfamily p1))).
  { intros k s Hk.
    destruct (mask_inet_Ok p1 k s Hfam Hl1 ltac:(lia))
      as (v1 & b2 & Hv1' & _ & Hp2 & _ & Hm2).
    rewrite Hv1 in Hv1'. injection Hv1' as <-.
    rewrite Hshift in Hp2 by done. eauto. }
  destruct (Hagain m s2 Hm) as (b2 & Hb2 & Hm2).
  destruct (mask_inet_Ok p (Z.min n m) s1 Hfam Hlen ltac:(lia))
    as (v' & b3 & Hv' & _ & Hp3 & _ & Hm3).
  rewrite Hv in Hv'. injection Hv' as <-.
  exists p1. eexists _, _. split_and!; [exact Hm1 | exact Hm2 | exact Hm3 | |].
  - cbn. congruence.
  - intros <-. destruct (Hagain n s1 Hn) as (b4 & Hb4 & Hm4).
    rewrite Hm4. rewrite Z.min_id in Hb4.
    assert (b4 = b1) as -> by congruence.
    subst p1. cbn. by destruct s1.
Qed.

(** The composition at ["10.1.2.3/32"], masked to 24 and then to 8
    bits. *)
Lemma mask_inet_compose_witness :
  addressfamily host_10_1_2_3 ≠ AFI_INET6
  ∧ length (prefix host_10_1_2_3) = 4%nat
  ∧ 0 <= 24 <= 32 ∧ 0 <= 8 <= 32
  ∧ ∃ p1 p2 p3,
    mask 24 false host_10_1_2_3 = Ok p1
    ∧ mask 8 true p1 = Ok p2
    ∧ mask (Z.min 24 8) false host_10_1_2_3 = Ok p3
    ∧ prefix p2 = prefix p3
    ∧ (24 = 8 → mask 24 false p1 = Ok p1).
Proof.
  assert (H1 : addressfamily host_10_1_2_3 ≠ AFI_INET6) by discriminate.
  assert (H2 : 0 <= 24 <= 32) by lia.
  assert (H3 : 0 <= 8 <= 32) by lia.
  split; [exact H1 |]. split; [reflexivity |]. split; [exact H2 |].
  split; [exact H3 |].
  apply (mask_inet_compose host_10_1_2_3 24 8 false true H1 eq_refl H2 H3).
Defined.

(** X18: the ways [mask] fails.  A prefix whose stored bytes are not
    full-width fails the assertion.  A full-width IPv4 prefix raises
    [ValueError] (a negative shift count) exactly when the new length
    exceeds 32 and succeeds otherwise; a new length of 0 or less zeroes
    the whole address, and with [shorten] the stored length becomes the
    new length even when that is negative. *)
Theorem mask_failures p newlen shorten :
  (Z.of_nat (length (prefix p)) ≠ _packedMaxLen p →
   mask newlen shorten p = Raise AssertionError)
  ∧ (addressfamily p ≠ AFI_INET6 → length (prefix p) = 4%nat →
     (mask newlen shorten p = Raise ValueError ↔ 32 < newlen)
     ∧ ((∃ e, mask newlen shorten p = Raise e) ↔ 32 < newlen)
     ∧ (newlen <= 32 →
        ∃ p', mask newlen shorten p = Ok p'
              ∧ prefixlen p' = (if shorten then newlen else prefixlen p)
              ∧ (newlen <= 0 → prefix p' = [x00; x00; x00; x00]))).
Proof.
  split.
  - intros Hne. unfold mask. apply Z.eqb_neq in Hne. by rewrite Hne.
  - intros Hfam Hlen.
    destruct (Z.le_gt_cases newlen 32) as [Hle | Hgt].
    + destruct (mask_inet_Ok p newlen shorten Hfam Hlen Hle)
        as (v & b & Hv & Hvb & Hp & Hl & Hm).
      rewrite Hm. split_and!.
      * split; [discriminate | lia].
      * split; [intros [e He]; discriminate | lia].
      * intros _. eexists. split_and!; [reflexivity | reflexivity |].
        intros H0. cbn.
        assert (Z.shiftr v (32 - newlen) = 0) as Hz.
        { rewrite Z.shiftr_div_pow2 by lia. apply Z.div_small.
          split; [lia |].
          apply Z.lt_le_trans with (2 ^ 32); [lia |].
          apply Z.pow_le_mono_r; lia. }
        rewrite Hz, Z.shiftl_0_l in Hp. vm_compute in Hp.
        by injection Hp as <-.
    + assert (Hraise : mask newlen shorten p = Raise ValueError).
      { destruct (ipToInt_4_bounded p Hlen) as (v & Hv & _).
        unfold mask, _packedMaxLen. rewrite Hlen.
        apply Z.eqb_neq in Hfam. rewrite Hfam.
        change (Z.of_nat 4) with 4. change (4 * 8) with 32.
        change (negb (4 =? 4)) with false. cbv iota.
        rewrite Hv. unfold shift_right.
        assert ((32 - newlen <? 0) = true) as -> by lia. reflexivity. }
      rewrite Hraise. split_and!.
      * split; [lia | done].
      * split; [lia | eauto].
      * lia.
Qed.

Example mask_edge_runs :
  mask 33 false host_10_1_2_3 = Raise ValueError
  ∧ mask (-1) true host_10_1_2_3
    = Ok (mkIPPrefix [x00; x00; x00; x00] (-1) AFI_INET)
  ∧ mask 8 false short_ten = Raise AssertionError.
Proof. split_and!; reflexivity. Qed.

(** X19: [netmask] raises [ValueError] when the prefix length exceeds the
    number of stored bits and is otherwise minus two to the number of host
    bits; on a full-width IPv4 prefix, masking to the stored prefix length
    gives the address and-ed with the netmask. *)
Theorem netmask_spec p :
  let hostbits := Z.of_nat (length (prefix p)) * 8 - prefixlen p in
  (hostbits < 0 → netmask p = Raise ValueError)
  ∧ (0 <= hostbits → netmask p = Ok (- 2 ^ hostbits))
  ∧ (addressfamily p ≠ AFI_INET6 → length (prefix p) = 4%nat →
     0 <= prefixlen p <= 32 →
     ∃ v nm p',
       ipToInt p = Ok v ∧ netmask p = Ok nm
       ∧ mask (prefixlen p) false p = Ok p'
       ∧ ipToInt p' = Ok (Z.land v nm)).
Proof.
  cbn zeta. unfold netmask, shift_left.
  assert (Hnm : ∀ h, 0 <= h → Z.lnot (Z.shiftl 1 h - 1) = - 2 ^ h).
  { intros h Hh. rewrite Z.shiftl_1_l. unfold Z.lnot. lia. }
  split_and!.
  - intros Hneg. apply Z.ltb_lt in Hneg. by rewrite Hneg.
  - intros Hpos. assert (H := Hpos). apply Z.ltb_ge in H. rewrite H. cbn.
    by rewrite Hnm.
  - intros Hfam Hlen Hpl.
    destruct (mask_inet_Ok p (prefixlen p) false Hfam Hlen ltac:(lia))
      as (v & b & Hv & Hvb & Hp & Hl & Hm).
    rewrite Hlen. change (Z.of_nat 4 * 8) with 32.
    assert ((32 - prefixlen p <? 0) = false) as -> by lia. cbn.
    eexists v, _, _. split_and!; [done | reflexivity | exact Hm |].
    rewrite (ipToInt_pack_I _ _ _ _ Hp). f_equal.
    replace (Z.shiftl 1 (32 - prefixlen p) - 1)
      with (Z.ones (32 - prefixlen p))
      by (rewrite Z.ones_equiv, Z.shiftl_1_l; lia).
    rewrite <- Z.ldiff_land. symmetry. apply Z.ldiff_ones_r. lia.
Qed.

Example netmask_runs :
  netmask full_ten = Ok (-16777216)
  ∧ netmask host_10_1_2_3 = Ok (-1)
  ∧ netmask (mkIPPrefix [x0a] 9 AFI_INET) = Raise ValueError.
Proof. split_and!; reflexivity. Qed.

(** *** Constructors *)

Lemma mapM_result_Ok {A B} (f : A → result B) l ys :
  mapM f l = Ok ys ↔ Forall2 (λ x y, f x = Ok y) l ys.
Proof.
  revert ys. induction l as [|x l IH]; intros ys.
  - cbn. split.
    + intros [= <-]. constructor.
    + intros H. by inversion H.
  - cbn. split.
    + destruct (f x) as [y|] eqn:Hy; cbn; [| discriminate].
      destruct (mapM f l) as [ys'|] eqn:Hys; cbn; [| discriminate].
      intros [= <-]. constructor; [done |]. by apply IH.
    + intros H. inversion H as [|? y ? ys' Hy Hys]; subst.
      rewrite Hy. cbn. apply IH in Hys. rewrite Hys. reflexivity.
Qed.

Lemma mapM_result_raise {A B} (f : A → result B) l e :
  mapM f l = Raise e → ∃ x, x ∈ l ∧ f x = Raise e.
Proof.
  induction l as [|x l IH]; cbn; [discriminate |].
  destruct (f x) as [y|e'] eqn:Hy; cbn.
  - destruct (mapM f l) as [ys|e'] eqn:Hys; cbn; [discriminate |].
    intros [= ->]. destruct (IH eq_refl) as (x' & Hin & Hx').
    exists x'. split; [by right | done].
  - intros [= ->]. exists x. split; [left | done].
Qed.

Lemma chr_Ok z b : chr z = Ok b ↔ 0 <= z < 256 ∧ ord b = z.
Proof.
  unfold chr. destruct (Z.leb_spec 0 z), (Z.ltb_spec z 256); cbn;
    try (split; [discriminate | lia]).
  split.
  - intros [= <-]. split; [lia |]. rewrite ord_byte_of_Z.
    apply Z.mod_small. lia.
  - intros [_ Hb]. f_equal. apply ord_inj. rewrite ord_byte_of_Z, Hb.
    apply Z.mod_small. lia.
Qed.

Section constructors.
Variable int_ : Z → string → result Z.

(** X20: the constructor from [(ipint, prefixlen)] accepts only the
    family [AFI_INET] (anything else, or no family, is [ValueError]) and
    only integers that fit 32 bits ([struct.error] otherwise); the prefix
    it builds holds four bytes whose integer value is [ipint] again.  The
    prefix length is stored unchecked. *)
Theorem IPPrefix_init_int_tuple ipint len family :
  let r := IPPrefix_init int_ (ArgIntTuple ipint len) family in
  (r = Raise ValueError ↔ family ≠ Some AFI_INET)
  ∧ (r = Raise StructError
     ↔ family = Some AFI_INET ∧ ¬ (0 <= ipint < 2 ^ 32))
  ∧ ((∃ p, r = Ok p) ↔ family = Some AFI_INET ∧ 0 <= ipint < 2 ^ 32)
  ∧ (∀ p, r = Ok p →
       ipToInt p = Ok ipint ∧ length (prefix p) = 4%nat
       ∧ prefixlen p = len ∧ addressfamily p = AFI_INET).
Proof.
  cbn zeta.
  assert (HA : family ≠ Some AFI_INET →
               IPPrefix_init int_ (ArgIntTuple ipint len) family
               = Raise ValueError).
  { intros Hne. cbn [IPPrefix_init].
    destruct family as [fam|]; cbn [truthy_int from_option id]; [| done].
    destruct (Z.eqb_spec fam 0) as [-> | Hnz]; cbn [negb]; [done |].
    destruct (Z.eqb_spec fam AFI_INET) as [-> | Hne'];
      [by destruct Hne | done]. }
  assert (HB : family = Some AFI_INET →
               IPPrefix_init int_ (ArgIntTuple ipint len) family
               = b ← pack_I ipint; Ok (mkIPPrefix b len AFI_INET)).
  { intros ->. reflexivity. }
  destruct (decide (family = Some AFI_INET)) as [Hf | Hf].
  2:{ rewrite (HA Hf). split_and!.
      - done.
      - split; [discriminate | intros [? _]; done].
      - split; [intros [? ?]; discriminate | intros [? _]; done].
      - intros p. discriminate. }
  rewrite (HB Hf).
  destruct (decide (0 <= ipint < 2 ^ 32)) as [Hr | Hr].
  - destruct (pack_I_Ok ipint Hr) as (b & Hb & Hlb).
    rewrite Hb. cbn. split_and!.
    + split; [discriminate | done].
    + split; [discriminate | intros [_ ?]; done].
    + split; [done | eauto].
    + intros p [= <-]. split_and!; try done. by apply ipToInt_pack_I.
  - assert (Hb : pack_I ipint = Raise StructError).
    { unfold pack_I.
      destruct (Z.leb_spec 0 ipint), (Z.ltb_spec ipint (2 ^ 32)); cbn;
        try reflexivity. lia. }
    rewrite Hb. cbn. split_and!.
    + split; [discriminate | done].
    + done.
    + split; [intros [? ?]; discriminate | intros [_ ?]; done].
    + intros p. discriminate.
Qed.

(** X21: the constructor from a sequence of octets needs a family; it
    then succeeds exactly when every octet is in [range(256)] and raises
    [ValueError] otherwise; the stored bytes are the octets, one each, in
    order, however many there are, and an empty sequence is accepted
    although [ipToInt] of the result raises [TypeError]. *)
Theorem IPPrefix_init_octets octets len family :
  let r := IPPrefix_init int_ (ArgOctetsTuple octets len) family in
  (truthy_int family = false → r = Raise ValueError)
  ∧ (truthy_int family = true →
     ((∃ p, r = Ok p) ↔ Forall (λ o, 0 <= o < 256) octets)
     ∧ (¬ Forall (λ o, 0 <= o < 256) octets → r = Raise ValueError)
     ∧ (∀ p, r = Ok p →
          map ord (prefix p) = octets ∧ prefixlen p = len
          ∧ Some (addressfamily p) = family
          ∧ (octets = [] → ipToInt p = Raise TypeError))).
Proof.
  cbn zeta. cbn [IPPrefix_init].
  destruct (truthy_int family) eqn:Hfam; (split; [done || discriminate |]);
    [| discriminate].
  intros _.
  assert (Hok : ∀ b, mapM chr octets = Ok b
                → Forall (λ o, 0 <= o < 256) octets ∧ map ord b = octets).
  { intros b HF%mapM_result_Ok.
    induction HF as [|o y l k [Hr Ho]%chr_Ok _ [IH1 IH2]]; [done |].
    split; [by constructor | cbn; congruence]. }
  destruct (mapM chr octets) as [b|e] eqn:Hm; cbn.
  - destruct (Hok b eq_refl) as [HF Hmap]. split_and!.
    + split; [done | eauto].
    + done.
    + intros p [= <-]. cbn. split_and!; try done.
      * destruct family; [done | discriminate].
      * intros ->. destruct b; [done | discriminate].
  - destruct (mapM_result_raise _ _ _ Hm) as (o & Hin & Ho).
    assert (He : e = ValueError).
    { unfold chr in Ho. destruct (_ && _); congruence. }
    assert (Hbad : ¬ Forall (λ o, 0 <= o < 256) octets).
    { intros HF. rewrite Forall_forall in HF. specialize (HF o Hin).
      unfold chr in Ho.
      destruct (Z.leb_spec 0 o), (Z.ltb_spec o 256); cbn in Ho;
        try discriminate; lia. }
    subst e. split_and!.
    + split; [intros [? ?]; done | done].
    + done.
    + intros p. discriminate.
Qed.

(** X24: in the textual IPv4 form every dot-separated part becomes one
    byte whose value the part parses to; the number of parts is not
    checked, so the stored bytes are as many as the parts. *)
Theorem pack_inet_parts addr b :
  pack_inet int_ addr = Ok b →
  length b = length (split "." addr)
  ∧ Forall2 (λ o byte, int_ 10 o = Ok (ord byte) ∧ 0 <= ord byte < 256)
      (split "." addr) b.
Proof.
  unfold pack_inet. intros HF%mapM_result_Ok.
  split; [symmetry; by eapply Forall2_length |].
  eapply Forall2_impl; [exact HF |]. cbn.
  intros o y. destruct (int_ 10 o) as [n|]; cbn; [| discriminate].
  intros [Hr <-]%chr_Ok. done.
Qed.

Lemma split_length sep s : length (split sep s) = S (occurrences sep s).
Proof.
  induction s as [|c s IH]; [reflexivity |]. cbn.
  destruct (Ascii.eqb c sep); cbn.
  - by rewrite IH.
  - destruct (split sep s); cbn in *; lia.
Qed.

(** X25: text that does not contain exactly one ["/"] raises
    [ValueError], whatever the address part and the family are. *)
Theorem IPPrefix_init_text_slash text family :
  occurrences "/" text ≠ 1%nat →
  IPPrefix_init int_ (ArgText text) family = Raise ValueError.
Proof.
  intros Hn. cbn [IPPrefix_init].
  pose proof (split_length "/" text) as Hlen.
  destruct (split "/" text) as [|a [|b [|c l]]]; try reflexivity.
  cbn in Hlen. lia.
Qed.

End constructors.

(** A dotted quad of five parts is stored as five bytes. *)
Lemma pack_inet_parts_witness :
  pack_inet int_digits "1.2.3.4.5" = Ok [x01; x02; x03; x04; x05]
  ∧ length [x01; x02; x03; x04; x05] = length (split "." "1.2.3.4.5")
  ∧ Forall2 (λ o byte, int_digits 10 o = Ok (ord byte) ∧ 0 <= ord byte < 256)
      (split "." "1.2.3.4.5") [x01; x02; x03; x04; x05].
Proof.
  split; [reflexivity |].
  apply (pack_inet_parts int_digits "1.2.3.4.5" [x01; x02; x03; x04; x05]).
  reflexivity.
Defined.

(** A bare address without a length. *)
Lemma IPPrefix_init_text_slash_witness :
  occurrences "/" "10.0.0.0" ≠ 1%nat
  ∧ IPPrefix_init int_digits (ArgText "10.0.0.0") None = Raise ValueError.
Proof.
  assert (H : occurrences "/" "10.0.0.0" ≠ 1%nat) by discriminate.
  split; [exact H |].
  apply (IPPrefix_init_text_slash int_digits "10.0.0.0" None H).
Defined.

(** X22: [_packedMinLen] is the prefix length divided by eight and
    rounded up: the least number of bytes that hold that many bits. *)
Theorem _packedMinLen_ceil p :
  8 * (_packedMinLen p - 1) < prefixlen p <= 8 * _packedMinLen p
  ∧ (0 <= prefixlen p → 0 <= _packedMinLen p)
  ∧ (prefixlen p mod 8 = 0 → 8 * _packedMinLen p = prefixlen p).
Proof.
  unfold _packedMinLen. split_and!; intros;
    Z.to_euclidean_division_equations; lia.
Qed.

(** X23: [packed(pad=True)] is the stored bytes followed by zero bytes up
    to the family width (16 for [AFI_INET6], 4 for anything else); it
    never truncates, so its length is the larger of the stored length and
    the width; without [pad] it is the stored bytes. *)
Theorem packed_pad p :
  packed false p = prefix p
  ∧ (∃ k, packed true p = prefix p ++ repeat x00 k)
  ∧ Z.of_nat (length (packed true p))
    = Z.max (_packedMaxLen p) (Z.of_nat (length (prefix p)))
  ∧ (_packedMaxLen p <= Z.of_nat (length (prefix p)) →
     packed true p = prefix p)
  ∧ (_packedMaxLen p = 16 ∨ _packedMaxLen p = 4).
Proof.
  unfold packed. split_and!.
  - reflexivity.
  - unfold ljust. eauto.
  - apply ljust_length.
  - intros H. unfold ljust.
    replace (Z.to_nat _) with 0%nat by lia. apply app_nil_r.
  - unfold _packedMaxLen. destruct (_ =? _); auto.
Qed.

(** *** Text output and its way back *)

Example IPPrefix_str_runs :
  IPPrefix_str full_ten = Ok "10.0.0.0/8"
  ∧ IPPrefix_str short_ten = Ok "10.0.0.0/8"
  ∧ IPPrefix_str net_2620 = Ok "2620:0:0:0:0:0:0:0/32"
  ∧ IPPrefix_str loopback6 = Ok "0:0:0:0:0:0:0:1/128"
  ∧ IPPrefix_str net_unspecified = Raise StructError
  ∧ IPPrefix_str (mkIPPrefix [xff; xfe; x0a; xbc] 16 AFI_INET6)
    = Ok "fffe:abc:0:0:0:0:0:0/16".
Proof. split_and!; vm_compute; reflexivity. Qed.

Lemma char_in_app c a b : char_in c (a +:+ b) = char_in c a || char_in c b.
Proof.
  induction a as [|x a IH]; [reflexivity |]. simpl.
  destruct (Ascii.eqb x c); [reflexivity | exact IH].
Qed.

Lemma split_no_sep sep s : char_in sep s = false → split sep s = [s].
Proof.
  induction s as [|c s IH]; [reflexivity |]. cbn.
  destruct (Ascii.eqb c sep); [discriminate |].
  intros H. by rewrite (IH H).
Qed.

Lemma split_app sep a b :
  char_in sep a = false →
  split sep (a +:+ String sep b) = a :: split sep b.
Proof.
  induction a as [|c a IH]; simpl.
  - intros _. by rewrite Ascii.eqb_refl.
  - destruct (Ascii.eqb c sep); [discriminate |].
    intros H. by rewrite (IH H).
Qed.

Lemma split_concat sep l :
  l ≠ [] → Forall (λ x, char_in sep x = false) l →
  split sep (String.concat (String sep EmptyString) l) = l.
Proof.
  intros Hne HF. induction HF as [|x l Hx HF IH]; [done |].
  destruct l as [|y l].
  - cbn. by apply split_no_sep.
  - change (String.concat (String sep "") (x :: y :: l))
      with (x +:+ String sep (String.concat (String sep "") (y :: l))).
    rewrite split_app by done. by rewrite IH.
Qed.

Lemma char_in_concat c sep l :
  char_in c sep = false → Forall (λ x, char_in c x = false) l →
  char_in c (String.concat sep l) = false.
Proof.
  intros Hsep HF. induction HF as [|x l Hx HF IH]; [reflexivity |].
  destruct l as [|y l]; [exact Hx |].
  change (String.concat sep (x :: y :: l))
    with (x +:+ sep +:+ String.concat sep (y :: l)).
  by rewrite !char_in_app, Hx, Hsep, IH.
Qed.

Lemma pretty_N_char_digit d :
  (d < 10)%N → digit_value (pretty_N_char d) = Some (Z.of_N d).
Proof.
  intros H.
  assert (d = 0 ∨ d = 1 ∨ d = 2 ∨ d = 3 ∨ d = 4 ∨ d = 5 ∨ d = 6 ∨ d = 7
          ∨ d = 8 ∨ d = 9)%N as Hd by lia.
  repeat (destruct Hd as [-> | Hd]; [reflexivity |]). by subst.
Qed.

Lemma pretty_N_go_value x s acc :
  acc = 0 →
  digits_value 10 (pretty_N_go x s) acc = digits_value 10 s (Z.of_N x).
Proof.
  intros ->. revert s.
  induction (N.lt_wf_0 x) as [x _ IH]; intros s.
  destruct (decide (x = 0)%N) as [-> | Hx].
  { by rewrite pretty_N_go_0. }
  rewrite pretty_N_go_step by lia.
  rewrite IH by (apply N.div_lt; lia).
  cbn [digits_value].
  rewrite pretty_N_char_digit by (apply N.mod_lt; lia).
  assert ((Z.of_N (x `mod` 10) <? 10) = true) as ->.
  { apply Z.ltb_lt. pose proof (N.mod_lt x 10). lia. }
  f_equal. rewrite N2Z.inj_div, N2Z.inj_mod.
  change (Z.of_N 10) with 10. pose proof (Z.div_mod (Z.of_N x) 10). lia.
Qed.

Lemma pretty_N_go_nonempty x s : s ≠ "" → pretty_N_go x s ≠ "".
Proof.
  revert s. induction (N.lt_wf_0 x) as [x _ IH]; intros s Hs.
  destruct (decide (x = 0)%N) as [-> | Hx].
  { by rewrite pretty_N_go_0. }
  rewrite pretty_N_go_step by lia. apply IH; [apply N.div_lt; lia | done].
Qed.

Lemma pretty_N_go_char_in c x s :
  (∀ d, (d < 10)%N → pretty_N_char d ≠ c) →
  char_in c (pretty_N_go x s) = char_in c s.
Proof.
  intros Hc. revert s. induction (N.lt_wf_0 x) as [x _ IH]; intros s.
  destruct (decide (x = 0)%N) as [-> | Hx].
  { by rewrite pretty_N_go_0. }
  rewrite pretty_N_go_step by lia.
  rewrite IH by (apply N.div_lt; lia). cbn -[Ascii.eqb].
  destruct (Ascii.eqb_spec (pretty_N_char (x `mod` 10)) c) as [He | _];
    [| done].
  destruct (Hc (x `mod` 10)%N); [apply N.mod_lt; lia | done].
Qed.

Lemma fmt_d_nonneg z :
  0 <= z →
  fmt_d z = "0" ∨ (∃ x, z = Z.of_N x ∧ x ≠ 0%N ∧ fmt_d z = pretty_N_go x "").
Proof.
  intros Hz. destruct z as [|q|q]; [by left | | lia].
  right. exists (N.pos q). split_and!; try done.
Qed.

Lemma int_digits_fmt_d z : 0 <= z → int_digits 10 (fmt_d z) = Ok z.
Proof.
  intros Hz. destruct (fmt_d_nonneg z Hz) as [H0 | (x & -> & Hx & Hf)].
  - destruct z as [|q|q]; [reflexivity | | lia].
    unfold fmt_d, pretty, pretty_Z, pretty, pretty_positive, pretty,
      pretty_N in H0.
    destruct (decide (N.pos q = 0%N)); [done |].
    by destruct (pretty_N_go_ne_0 (N.pos q) "").
  - rewrite Hf. unfold int_digits.
    destruct (pretty_N_go x "") eqn:Hp.
    + destruct x as [|q]; [done |].
      rewrite pretty_N_go_step in Hp by lia.
      by apply pretty_N_go_nonempty in Hp.
    + rewrite <- Hp. by rewrite pretty_N_go_value.
Qed.

Lemma fmt_d_char_in c z :
  0 <= z → (∀ d, (d < 10)%N → pretty_N_char d ≠ c) →
  char_in c (fmt_d z) = false.
Proof.
  intros Hz Hc. destruct (fmt_d_nonneg z Hz) as [-> | (x & _ & _ & ->)].
  - cbn -[Ascii.eqb].
    destruct (Ascii.eqb_spec "0"%char c) as [He | _]; [| done].
    by destruct (Hc 0%N).
  - by rewrite pretty_N_go_char_in.
Qed.

Lemma not_decimal c :
  (N_of_ascii c < 48 ∨ 57 < N_of_ascii c)%N →
  ∀ d, (d < 10)%N → pretty_N_char d ≠ c.
Proof.
  intros Hc d Hd <-.
  assert (d = 0 ∨ d = 1 ∨ d = 2 ∨ d = 3 ∨ d = 4 ∨ d = 5 ∨ d = 6 ∨ d = 7
          ∨ d = 8 ∨ d = 9)%N as H by lia.
  repeat (destruct H as [-> | H]; [cbn in Hc; lia |]). subst. cbn in Hc. lia.
Qed.

Section text_round_trip.
Variable int_ : Z → string → result Z.
Hypothesis int_decimal : ∀ z, 0 <= z → int_ 10 (fmt_d z) = Ok z.

Lemma pack_inet_decimal bytes :
  bytes ≠ [] →
  pack_inet int_ (String.concat "." (map (λ o, fmt_d (ord o)) bytes))
  = Ok bytes.
Proof.
  intros Hne. unfold pack_inet.
  rewrite split_concat.
  - apply mapM_result_Ok. clear Hne.
    induction bytes as [|b bytes IH]; constructor; [| exact IH].
    pose proof (ord_bounded b). rewrite int_decimal by lia. cbn.
    apply chr_Ok. split; [lia | done].
  - by destruct bytes.
  - apply Forall_forall. intros x [b [-> _]]%list_elem_of_fmap.
    apply fmt_d_char_in; [pose proof (ord_bounded b); lia |].
    apply not_decimal. cbn. lia.
Qed.

(** X26: the text of an IPv4 prefix with a non-negative prefix length
    parses back, with the family inferred, to the prefix with the same
    length and the bytes padded to four: [__str__] followed by the
    constructor is the identity up to padding, and the result is [==] to
    the original. *)
Theorem IPPrefix_str_inet_round_trip p :
  addressfamily p = AFI_INET → 0 <= prefixlen p →
  ∃ text p',
    IPPrefix_str p = Ok text
    ∧ IPPrefix_init int_ (ArgText text) None = Ok p'
    ∧ p' = mkIPPrefix (packed true p) (prefixlen p) AFI_INET
    ∧ IPPrefix_eq p p' = true.
Proof.
  intros Hfam Hlen.
  set (bytes := packed true p).
  assert (Hne : bytes ≠ []).
  { intros H. pose proof (ljust_length (_packedMaxLen p) (prefix p)) as Hl.
    unfold bytes, packed in H. rewrite H in Hl.
    unfold _packedMaxLen in Hl. rewrite Hfam in Hl. cbn in Hl. lia. }
  set (J := String.concat "." (map (λ o, fmt_d (ord o)) bytes)).
  assert (HJ : ∀ c, c ≠ "."%char →
                    (N_of_ascii c < 48 ∨ 57 < N_of_ascii c)%N →
                    char_in c J = false).
  { intros c Hdot Hc. apply char_in_concat.
    - cbn -[Ascii.eqb].
      by destruct (Ascii.eqb_spec "."%char c) as [<- | _].
    - apply Forall_forall. intros x [b [-> _]]%list_elem_of_fmap.
      apply fmt_d_char_in; [pose proof (ord_bounded b); lia |].
      apply not_decimal. lia. }
  eexists (J +:+ "/" +:+ fmt_d (prefixlen p)), _.
  split; [unfold IPPrefix_str; by rewrite Hfam |].
  split; [| split; [reflexivity |]].
  - cbn [IPPrefix_init].
    change (J +:+ "/" +:+ fmt_d (prefixlen p))
      with (J +:+ String "/" (fmt_d (prefixlen p))).
    rewrite split_app by (apply HJ; [done | cbn; lia]).
    rewrite split_no_sep
      by (apply fmt_d_char_in; [done | apply not_decimal; cbn; lia]).
    cbn [truthy_int]. rewrite (HJ ":"%char) by (done || (cbn; lia)).
    change (AFI_INET =? AFI_INET) with true. cbv iota.
    unfold J. rewrite pack_inet_decimal by done. cbn.
    rewrite int_decimal by done. reflexivity.
  - apply IPPrefix_eq_iff. split; [reflexivity |].
    unfold packed, _packedMaxLen. cbn [prefix addressfamily].
    rewrite Hfam. unfold bytes, packed, _packedMaxLen. rewrite Hfam.
    by rewrite ljust_idemp.
Qed.

End text_round_trip.

(** The round trip at ["10/8"], which comes back as ["10.0.0.0/8"]. *)
Lemma IPPrefix_str_inet_round_trip_witness :
  (∀ z, 0 <= z → int_digits 10 (fmt_d z) = Ok z)
  ∧ addressfamily short_ten = AFI_INET ∧ 0 <= prefixlen short_ten
  ∧ ∃ text p',
    IPPrefix_str short_ten = Ok text
    ∧ IPPrefix_init int_digits (ArgText text) None = Ok p'
    ∧ p' = mkIPPrefix (packed true short_ten) (prefixlen short_ten) AFI_INET
    ∧ IPPrefix_eq short_ten p' = true.
Proof.
  assert (H : 0 <= prefixlen short_ten) by (cbn; lia).
  split; [exact int_digits_fmt_d |]. split; [reflexivity |].
  split; [exact H |].
  apply (IPPrefix_str_inet_round_trip int_digits int_digits_fmt_d short_ten
           eq_refl H).
Defined.

Lemma hex_char_digit d :
  0 <= d < 16 → digit_value (hex_char d) = Some d.
Proof.
  intros H.
  assert (d = 0 ∨ d = 1 ∨ d = 2 ∨ d = 3 ∨ d = 4 ∨ d = 5 ∨ d = 6 ∨ d = 7
          ∨ d = 8 ∨ d = 9 ∨ d = 10 ∨ d = 11 ∨ d = 12 ∨ d = 13 ∨ d = 14
          ∨ d = 15) as Hd by lia.
  repeat (destruct Hd as [-> | Hd]; [reflexivity |]). by subst.
Qed.

Lemma hex_char_range d :
  0 <= d < 16 →
  (48 <= N_of_ascii (hex_char d) <= 57
   ∨ 97 <= N_of_ascii (hex_char d) <= 102)%N.
Proof.
  intros H.
  assert (d = 0 ∨ d = 1 ∨ d = 2 ∨ d = 3 ∨ d = 4 ∨ d = 5 ∨ d = 6 ∨ d = 7
          ∨ d = 8 ∨ d = 9 ∨ d = 10 ∨ d = 11 ∨ d = 12 ∨ d = 13 ∨ d = 14
          ∨ d = 15) as Hd by lia.
  assert (Hb : ((48 <=? N_of_ascii (hex_char d))
                && (N_of_ascii (hex_char d) <=? 57)
                || (97 <=? N_of_ascii (hex_char d))
                   && (N_of_ascii (hex_char d) <=? 102))%N = true).
  { repeat (destruct Hd as [-> | Hd]; [reflexivity |]). by subst. }
  apply orb_true_iff in Hb. rewrite !andb_true_iff, !N.leb_le in Hb.
  exact Hb.
Qed.

Lemma hex_go_value fuel n s :
  0 <= n < 2 ^ Z.of_nat fuel →
  digits_value 16 (hex_go fuel n s) 0 = digits_value 16 s n.
Proof.
  revert n s. induction fuel as [|fuel IH]; intros n s Hn.
  - cbn in *. by replace n with 0 by lia.
  - cbn [hex_go]. destruct (Z.leb_spec n 0) as [H0 | H0].
    { by replace n with 0 by lia. }
    rewrite IH.
    + cbn [digits_value].
      pose proof (Z.mod_pos_bound n 16 ltac:(lia)) as Hm.
      rewrite hex_char_digit by lia.
      assert ((n mod 16 <? 16) = true) as -> by lia.
      f_equal. pose proof (Z.div_mod n 16). lia.
    + rewrite Nat2Z.inj_succ, Z.pow_succ_r in Hn by lia.
      split; [apply Z.div_pos; lia |].
      apply Z.div_lt_upper_bound; lia.
Qed.

Lemma hex_go_nonempty fuel n s : s ≠ "" → hex_go fuel n s ≠ "".
Proof.
  revert n s. induction fuel as [|fuel IH]; intros n s Hs; [done |].
  cbn [hex_go]. destruct (n <=? 0); [done |]. by apply IH.
Qed.

Lemma hex_go_char_in c fuel n s :
  (∀ d, 0 <= d < 16 → hex_char d ≠ c) →
  char_in c (hex_go fuel n s) = char_in c s.
Proof.
  intros Hc. revert n s. induction fuel as [|fuel IH]; intros n s; [done |].
  cbn [hex_go]. destruct (n <=? 0); [done |].
  rewrite IH. cbn -[Ascii.eqb].
  destruct (Ascii.eqb_spec (hex_char (n mod 16)) c) as [He | _]; [| done].
  destruct (Hc (n mod 16)); [| done].
  apply Z.mod_pos_bound. lia.
Qed.

Lemma hex_digits_nonempty n : hex_digits n ≠ "".
Proof.
  unfold hex_digits. destruct (Z.leb_spec n 0); [done |].
  cbn [hex_go]. destruct (Z.leb_spec n 0); [lia |].
  by apply hex_go_nonempty.
Qed.

Lemma int_digits_hex z : 0 <= z → int_digits 16 (hex_digits z) = Ok z.
Proof.
  intros Hz. unfold int_digits.
  destruct (hex_digits z) eqn:Hh; [by destruct (hex_digits_nonempty z) |].
  rewrite <- Hh. unfold hex_digits.
  destruct (Z.leb_spec z 0); [by replace z with 0 by lia |].
  rewrite hex_go_value; [reflexivity |].
  rewrite Nat2Z.inj_succ, Z2Nat.id by apply Z.log2_nonneg.
  pose proof (Z.log2_spec z ltac:(lia)). lia.
Qed.

Lemma hex_digits_char_in c z :
  (N_of_ascii c < 48 ∨ 57 < N_of_ascii c < 97 ∨ 102 < N_of_ascii c)%N →
  char_in c (hex_digits z) = false.
Proof.
  intros Hc.
  assert (Hne : ∀ d, 0 <= d < 16 → hex_char d ≠ c).
  { intros d Hd <-. pose proof (hex_char_range d Hd). lia. }
  unfold hex_digits. destruct (z <=? 0).
  - cbn -[Ascii.eqb].
    destruct (Ascii.eqb_spec "0"%char c) as [<- | _]; [| done].
    cbn in Hc. lia.
  - by rewrite hex_go_char_in.
Qed.

Lemma byte_of_Z_ord b : byte_of_Z (ord b) = b.
Proof.
  apply ord_inj. rewrite ord_byte_of_Z. apply Z.mod_small.
  pose proof (ord_bounded b). lia.
Qed.

Lemma pack_H_ord hi lo : pack_H (ord hi * 256 + ord lo) = Ok [hi; lo].
Proof.
  pose proof (ord_bounded hi). pose proof (ord_bounded lo).
  unfold pack_H. change (2 ^ 16) with 65536. change (2 ^ 8) with 256.
  assert ((0 <=? ord hi * 256 + ord lo) = true) as -> by lia.
  assert ((ord hi * 256 + ord lo <? 65536) = true) as -> by lia.
  cbn [andb]. do 2 f_equal.
  - rewrite <- (byte_of_Z_ord hi) at 2. f_equal.
    Z.to_euclidean_division_equations. lia.
  - f_equal. apply ord_inj. rewrite ord_byte_of_Z.
    Z.to_euclidean_division_equations. lia.
Qed.

Lemma string_get_last t c :
  String.get (String.length t) (t +:+ String c "") = Some c.
Proof. induction t as [|a t IH]; [reflexivity | exact IH]. Qed.

Lemma string_length_app a b :
  String.length (a +:+ b) = (String.length a + String.length b)%nat.
Proof.
  induction a as [|x a IH]; [reflexivity |].
  change (S (String.length (a +:+ b))
          = S (String.length a + String.length b)).
  by f_equal.
Qed.

Lemma endswith_colons_false t c :
  c ≠ ":"%char → endswith "::" (t +:+ String c "") = false.
Proof.
  intros Hc. unfold endswith.
  destruct (_ <=? _)%nat eqn:Hlen; [| reflexivity]. cbn [andb].
  apply Nat.leb_le in Hlen. rewrite string_length_app in Hlen |- *.
  cbn [String.length] in *.
  destruct (String.eqb_spec
    (substring (String.length t + 1 - 2) 2 (t +:+ String c "")) "::")
    as [He | _]; [| reflexivity].
  pose proof (substring_correct1 (t +:+ String c "")
                (String.length t + 1 - 2) 2 1 ltac:(lia)) as Hg.
  rewrite He in Hg. cbn [String.get] in Hg.
  replace (1 + (String.length t + 1 - 2))%nat with (String.length t) in Hg
    by lia.
  rewrite string_get_last in Hg. congruence.
Qed.

Lemma string_snoc s :
  s ≠ "" → ∃ t c, s = t +:+ String c "" ∧ char_in c s = true.
Proof.
  induction s as [|a s IH]; [done |]. intros _.
  destruct s as [|b s].
  - exists "", a. split; [reflexivity |]. cbn -[Ascii.eqb].
    by rewrite Ascii.eqb_refl.
  - destruct IH as (t & c & Ht & Hc); [done |].
    exists (String a t), c. split; [by rewrite Ht |].
    change (char_in c (String a (String b s)))
      with (if Ascii.eqb a c then true else char_in c (String b s)).
    rewrite Hc. by destruct (Ascii.eqb a c).
Qed.

Lemma string_app_assoc a b c : (a +:+ b) +:+ c = a +:+ (b +:+ c).
Proof.
  induction a as [|x a IH]; [reflexivity |].
  change (String x ((a +:+ b) +:+ c) = String x (a +:+ (b +:+ c))).
  by f_equal.
Qed.

Lemma concat_snoc sep l g :
  ∃ pre, String.concat sep (l ++ [g]) = pre +:+ g.
Proof.
  induction l as [|x l [pre IH]].
  - by exists "".
  - exists (x +:+ sep +:+ pre).
    change (String.concat sep ((x :: l) ++ [g]))
      with (String.concat sep (x :: (l ++ [g]))).
    destruct (l ++ [g]) as [|y k] eqn:Hk; [by destruct l |].
    change (String.concat sep (x :: y :: k))
      with (x +:+ sep +:+ String.concat sep (y :: k)).
    by rewrite IH, !string_app_assoc.
Qed.

Lemma unpack_H_groups_length k bytes :
  length bytes = (2 * k)%nat → length (unpack_H_groups bytes) = k.
Proof.
  revert bytes. induction k as [|k IH]; intros bytes Hl.
  - by destruct bytes.
  - destruct bytes as [|hi [|lo rest]]; try (cbn in Hl; lia).
    cbn. f_equal. apply IH. cbn in Hl. lia.
Qed.

Lemma startswith_concat_false l :
  l ≠ [] → Forall (λ x, x ≠ "" ∧ char_in ":" x = false) l →
  startswith "::" (String.concat ":" l) = false.
Proof.
  intros Hne HF. destruct HF as [|x l [Hx Hc] _]; [done |].
  destruct x as [|c x]; [done |].
  assert (Hcc : c ≠ ":"%char).
  { intros ->. cbn -[Ascii.eqb] in Hc. by rewrite Ascii.eqb_refl in Hc. }
  assert (∀ rest, startswith "::" (String c rest) = false) as Hs.
  { intros rest. unfold startswith. cbn [String.prefix].
    destruct (ascii_dec ":" c) as [He | _]; [by destruct Hcc | done]. }
  destruct l as [|y l]; [apply Hs |].
  change (String.concat ":" (String c x :: y :: l))
    with (String c (x +:+ ":" +:+ String.concat ":" (y :: l))).
  apply Hs.
Qed.

Lemma endswith_concat_false l :
  l ≠ [] → Forall (λ x, x ≠ "" ∧ char_in ":" x = false) l →
  endswith "::" (String.concat ":" l) = false.
Proof.
  intros Hne HF.
  destruct (exists_last Hne) as (k & g & ->).
  destruct (concat_snoc ":" k g) as [pre ->].
  apply Forall_app in HF as [_ HF]. inversion HF as [|? ? [Hg Hc] _]; subst.
  destruct (string_snoc g Hg) as (t & c & -> & Hin).
  rewrite <- string_app_assoc. apply endswith_colons_false.
  intros ->. congruence.
Qed.

Section text_round_trip6.
Variable int_ : Z → string → result Z.
Hypothesis int_decimal : ∀ z, 0 <= z → int_ 10 (fmt_d z) = Ok z.
Hypothesis int_hex : ∀ z, 0 <= z → int_ 16 (hex_digits z) = Ok z.

Lemma pack_hexlist_hex n k bytes acc :
  length bytes = (2 * k)%nat →
  pack_hexlist int_ n (map hex_digits (unpack_H_groups bytes)) acc
  = Ok (acc ++ bytes).
Proof.
  revert bytes acc. induction k as [|k IH]; intros bytes acc Hl.
  - destruct bytes; [| discriminate]. cbn. by rewrite app_nil_r.
  - destruct bytes as [|hi [|lo rest]]; try (cbn in Hl; lia).
    cbn [unpack_H_groups map pack_hexlist].
    destruct (hex_digits (ord hi * 256 + ord lo)) as [|c h] eqn:Hh.
    { by destruct (hex_digits_nonempty (ord hi * 256 + ord lo)). }
    rewrite <- Hh.
    pose proof (ord_bounded hi). pose proof (ord_bounded lo).
    rewrite int_hex by lia. cbn. rewrite pack_H_ord. cbn.
    rewrite IH by (cbn in Hl; lia).
    by rewrite <- app_assoc.
Qed.

(** X27: the text of an IPv6 prefix that stores at most 16 bytes and has
    a non-negative prefix length is eight colon-separated groups in
    lower-case hex without ["::"], and it parses back, with the family
    inferred, to the prefix with the same length and the bytes padded to
    sixteen; the result is [==] to the original. *)
Theorem IPPrefix_str_inet6_round_trip p :
  addressfamily p = AFI_INET6 → (length (prefix p) <= 16)%nat →
  0 <= prefixlen p →
  ∃ text p',
    IPPrefix_str p = Ok text
    ∧ IPPrefix_init int_ (ArgText text) None = Ok p'
    ∧ p' = mkIPPrefix (packed true p) (prefixlen p) AFI_INET6
    ∧ length (prefix p') = 16%nat
    ∧ IPPrefix_eq p p' = true.
Proof.
  intros Hfam Hl16 Hlen.
  set (bytes := packed true p).
  assert (Hbl : length bytes = 16%nat).
  { pose proof (ljust_length (_packedMaxLen p) (prefix p)) as Hl.
    unfold bytes, packed. unfold _packedMaxLen in *. rewrite Hfam in *.
    change (AFI_INET6 =? AFI_INET6) with true in *. cbv iota in *. lia. }
  set (groups := unpack_H_groups bytes).
  set (strs := map hex_digits groups).
  assert (Hslen : length strs = 8%nat).
  { unfold strs, groups. rewrite length_map.
    by apply unpack_H_groups_length. }
  assert (Hno : ∀ c, (N_of_ascii c < 48 ∨ 57 < N_of_ascii c < 97
                      ∨ 102 < N_of_ascii c)%N →
                     Forall (λ x, char_in c x = false) strs).
  { intros c Hc. apply Forall_forall.
    intros x [g [-> _]]%list_elem_of_fmap. by apply hex_digits_char_in. }
  set (J := String.concat ":" strs).
  assert (Hslash : char_in "/" J = false).
  { apply char_in_concat; [reflexivity | apply Hno; cbn; lia]. }
  assert (Hsplit : split ":" J = strs).
  { apply split_concat; [| apply Hno; cbn; lia].
    intros H. by rewrite H in Hslen. }
  assert (Hcolon : char_in ":" J = true).
  { unfold J. clearbody strs.
    destruct strs as [|x [|y l]]; try discriminate.
    change (String.concat ":" (x :: y :: l))
      with (x +:+ ":" +:+ String.concat ":" (y :: l)).
    rewrite !char_in_app. cbn. by rewrite orb_true_r. }
  assert (Hgood : Forall (λ x, x ≠ "" ∧ char_in ":" x = false) strs).
  { apply Forall_forall. intros x [g [-> _]]%list_elem_of_fmap.
    split; [apply hex_digits_nonempty |].
    apply hex_digits_char_in. cbn. lia. }
  assert (Hstrs : strs ≠ []) by (intros H; by rewrite H in Hslen).
  assert (Hstart : startswith "::" J = false)
    by by apply startswith_concat_false.
  assert (Hend : endswith "::" J = false)
    by by apply endswith_concat_false.
  eexists (J +:+ "/" +:+ fmt_d (prefixlen p)), _.
  split.
  { unfold IPPrefix_str. rewrite Hfam.
    change (AFI_INET6 =? AFI_INET) with false.
    change (AFI_INET6 =? AFI_INET6) with true. cbv iota.
    unfold unpack_8H. fold bytes. rewrite Hbl. reflexivity. }
  split; [| split; [reflexivity | split; [exact Hbl |]]].
  - cbn [IPPrefix_init].
    change (J +:+ "/" +:+ fmt_d (prefixlen p))
      with (J +:+ String "/" (fmt_d (prefixlen p))).
    rewrite split_app by done.
    rewrite split_no_sep
      by (apply fmt_d_char_in; [done | apply not_decimal; cbn; lia]).
    cbn [truthy_int]. rewrite Hcolon.
    change (AFI_INET6 =? AFI_INET) with false.
    change (AFI_INET6 =? AFI_INET6) with true. cbv iota.
    unfold pack_inet6, adjust_colons. rewrite Hstart, Hend, Hsplit, Hslen.
    change (8 <? Z.of_nat 8) with false. cbv iota.
    unfold strs, groups.
    rewrite (pack_hexlist_hex _ 8 bytes []) by done. cbn [app mbind].
    cbn. rewrite int_decimal by done. reflexivity.
  - apply IPPrefix_eq_iff. split; [reflexivity |].
    unfold packed, _packedMaxLen. cbn [prefix addressfamily].
    rewrite Hfam. unfold bytes, packed, _packedMaxLen. rewrite Hfam.
    by rewrite ljust_idemp.
Qed.

End text_round_trip6.

(** The round trip at ["1:2:3/48"], which comes back as
    ["1:2:3:0:0:0:0:0/48"]. *)
Lemma IPPrefix_str_inet6_round_trip_witness :
  (∀ z, 0 <= z → int_digits 10 (fmt_d z) = Ok z)
  ∧ (∀ z, 0 <= z → int_digits 16 (hex_digits z) = Ok z)
  ∧ addressfamily net_three_groups = AFI_INET6
  ∧ (length (prefix net_three_groups) <= 16)%nat
  ∧ 0 <= prefixlen net_three_groups
  ∧ ∃ text p',
    IPPrefix_str net_three_groups = Ok text
    ∧ IPPrefix_init int_digits (ArgText text) None = Ok p'
    ∧ p' = mkIPPrefix (packed true net_three_groups)
             (prefixlen net_three_groups) AFI_INET6
    ∧ length (prefix p') = 16%nat
    ∧ IPPrefix_eq net_three_groups p' = true.
Proof.
  assert (H1 : (length (prefix net_three_groups) <= 16)%nat) by (cbn; lia).
  assert (H2 : 0 <= prefixlen net_three_groups) by (cbn; lia).
  split; [exact int_digits_fmt_d |]. split; [exact int_digits_hex |].
  split; [reflexivity |]. split; [exact H1 |]. split; [exact H2 |].
  apply (IPPrefix_str_inet6_round_trip int_digits int_digits_fmt_d
           int_digits_hex net_three_groups eq_refl H1 H2).
Defined.

(** X28: [__str__] never fails on an IPv4 prefix; on an IPv6 prefix it
    raises [struct.error] exactly when more than 16 bytes are stored; for
    any other family it yields no string ([TypeError]). *)
Theorem IPPrefix_str_failures p :
  (addressfamily p = AFI_INET → ∃ text, IPPrefix_str p = Ok text)
  ∧ (addressfamily p = AFI_INET6 →
     (IPPrefix_str p = Raise StructError ↔ (16 < length (prefix p))%nat)
     ∧ ((length (prefix p) <= 16)%nat → ∃ text, IPPrefix_str p = Ok text))
  ∧ (addressfamily p ≠ AFI_INET → addressfamily p ≠ AFI_INET6 →
     IPPrefix_str p = Raise TypeError).
Proof.
  unfold IPPrefix_str. split_and!.
  - intros ->. cbn. eauto.
  - intros Hfam. rewrite Hfam.
    change (AFI_INET6 =? AFI_INET) with false.
    change (AFI_INET6 =? AFI_INET6) with true. cbv iota.
    pose proof (ljust_length (_packedMaxLen p) (prefix p)) as Hl.
    unfold unpack_8H, packed. unfold _packedMaxLen in *. rewrite Hfam in *.
    change (AFI_INET6 =? AFI_INET6) with true in *. cbv iota in *.
    destruct (Z.eqb_spec
      (Z.of_nat (length (ljust 16 (prefix p)))) 16) as [He | He]; cbn.
    + split; [split; [discriminate | lia] | eauto].
    + split; [split; [lia | done] | lia].
  - intros H4%Z.eqb_neq H6%Z.eqb_neq. by rewrite H4, H6.
Qed.

(** * Properties of pybal/monitors/dnsquery.py *)

Section dnsquery_properties.
Variable Time : Type.
Variable elapsed : Time → Time → Time.
Variable fmt_3f : Time → string.
Variable QUERY_TYPES : query_type → string.

(** X29: the two silent ways out of [_queryFailed].  A cancelled query
    changes nothing at all, whatever else the failure is.  A name error
    with [failOnNXDOMAIN] off counts as Up: [_resultUp] is called,
    [_resultDown] is not, one INFO line is reported, no duration is
    recorded, and the failure is not raised again. *)
Theorem _queryFailed_silent failure query now
    (self : DNSQueryMonitoringProtocol Time) :
  (is_CancelledError failure = true →
   _queryFailed Time elapsed fmt_3f QUERY_TYPES failure query now self
   = (self, ReturnsNone))
  ∧ (is_CancelledError failure = false →
     is_DNSQueryTimeoutError failure = false →
     is_DNSServerError failure = false →
     is_DNSNameError failure = true → failOnNXDOMAIN Time self = false →
     ∃ self',
       _queryFailed Time elapsed fmt_3f QUERY_TYPES failure query now self = (self', ReturnsNone)
       ∧ base Time self' = _resultUp (base Time self)
       ∧ down_results_total (metrics (base Time self'))
         = down_results_total (metrics (base Time self))
       ∧ down_transitions_total (metrics (base Time self'))
         = down_transitions_total (metrics (base Time self))
       ∧ request_duration_seconds Time self'
         = request_duration_seconds Time self
       ∧ reports Time self'
         = reports Time self ++ [(q_name query +:+ " NXDOMAIN", INFO)]
       ∧ checkStartTime Time self' = checkStartTime Time self).
Proof.
  unfold _queryFailed. split.
  - by intros ->.
  - intros -> -> -> -> ->. cbn. eexists. split; [reflexivity |].
    cbn. split_and!; try reflexivity.
    + unfold _resultUp; cbn. by destruct (_ || _).
    + unfold _resultUp; cbn. by destruct (_ || _).
Qed.

(** X30: every other failure counts as Down.  With a check in progress
    [_resultDown] is called once with the reason chosen by the kind of
    failure, [_resultUp] is not called, one ERROR line is reported, the
    duration is recorded under [failed], and the failure is raised again
    exactly when it is not in [catchList]; without a start time the
    callback raises [TypeError] before it has done any of this. *)
Theorem _queryFailed_down failure query now
    (self : DNSQueryMonitoringProtocol Time) :
  is_CancelledError failure = false →
  is_DNSQueryTimeoutError failure || is_DNSServerError failure
  || negb (is_DNSNameError failure) || failOnNXDOMAIN Time self = true →
  let queryStr := ", query: " +:+ q_name query +:+ " "
                  +:+ QUERY_TYPES (q_type query) in
  let errorStr :=
    if is_DNSQueryTimeoutError failure then "DNS query timeout" +:+ queryStr
    else if is_DNSServerError failure then "DNS server error" +:+ queryStr
    else if is_DNSNameError failure then q_name query +:+ " NXDOMAIN"
    else if is_DNSQueryRefusedError failure
    then "DNS query refused" +:+ queryStr
    else failure_str failure in
  (checkStartTime Time self = None →
   _queryFailed Time elapsed fmt_3f QUERY_TYPES failure query now self = (self, RaisesTypeError))
  ∧ (∀ start, checkStartTime Time self = Some start →
     ∃ self',
       _queryFailed Time elapsed fmt_3f QUERY_TYPES failure query now self
       = (self', if in_catchList failure then ReturnsNone
                 else ReraisesFailure)
       ∧ base Time self' = _resultDown (Some errorStr) (base Time self)
       ∧ up_results_total (metrics (base Time self'))
         = up_results_total (metrics (base Time self))
       ∧ down_results_total (metrics (base Time self'))
         = down_results_total (metrics (base Time self)) + 1
       ∧ request_duration_seconds Time self'
         = request_duration_seconds Time self
           ++ [("failed", elapsed now start)]
       ∧ reports Time self'
         = reports Time self
           ++ [("DNS query failed, " +:+ fmt_3f (elapsed now start)
                +:+ " s", ERROR)]).
Proof.
  intros Hc Hdown. cbn zeta.
  assert (Htail : ∀ errorStr,
    (checkStartTime Time self = None →
     query_failed_with Time elapsed fmt_3f errorStr failure now self
     = (self, RaisesTypeError))
    ∧ (∀ start, checkStartTime Time self = Some start →
       ∃ self',
         query_failed_with Time elapsed fmt_3f errorStr failure now self
         = (self', if in_catchList failure then ReturnsNone
                   else ReraisesFailure)
         ∧ base Time self' = _resultDown (Some errorStr) (base Time self)
         ∧ up_results_total (metrics (base Time self'))
           = up_results_total (metrics (base Time self))
         ∧ down_results_total (metrics (base Time self'))
           = down_results_total (metrics (base Time self)) + 1
         ∧ request_duration_seconds Time self'
           = request_duration_seconds Time self
             ++ [("failed", elapsed now start)]
         ∧ reports Time self'
           = reports Time self
             ++ [("DNS query failed, " +:+ fmt_3f (elapsed now start)
                  +:+ " s", ERROR)])).
  { intros errorStr. unfold query_failed_with. split.
    - by intros ->.
    - intros start ->. eexists. split; [reflexivity |]. cbn.
      split_and!; try reflexivity.
      all: destruct (step_raw_counters (EvResultDown (Some errorStr))
                       (base Time self)) as [Hu Hd];
        cbn [step is_up_result is_down_result] in Hu, Hd; lia. }
  unfold _queryFailed. rewrite Hc.
  destruct (is_DNSQueryTimeoutError failure); [apply Htail |].
  destruct (is_DNSServerError failure); [apply Htail |].
  destruct (is_DNSNameError failure).
  - change (failOnNXDOMAIN Time self = true) in Hdown.
    rewrite Hdown. cbn [negb]. apply Htail.
  - destruct (is_DNSQueryRefusedError failure); apply Htail.
Qed.

End dnsquery_properties.

(** A refused query during a check that started at 100 and fails at
    103. *)
Lemma _queryFailed_down_witness :
  is_CancelledError refused = false
  ∧ is_DNSQueryTimeoutError refused || is_DNSServerError refused
    || negb (is_DNSNameError refused) || failOnNXDOMAIN Z dns_monitor = true
  ∧ let queryStr := ", query: " +:+ q_name query_a +:+ " "
                    +:+ query_type_name (q_type query_a) in
    let errorStr :=
      if is_DNSQueryTimeoutError refused
      then "DNS query timeout" +:+ queryStr
      else if is_DNSServerError refused then "DNS server error" +:+ queryStr
      else if is_DNSNameError refused then q_name query_a +:+ " NXDOMAIN"
      else if is_DNSQueryRefusedError refused
      then "DNS query refused" +:+ queryStr
      else failure_str refused in
    (checkStartTime Z dns_monitor = None →
     _queryFailed Z Z.sub fmt_d query_type_name refused query_a 103
       dns_monitor = (dns_monitor, RaisesTypeError))
    ∧ (∀ start, checkStartTime Z dns_monitor = Some start →
       ∃ self',
         _queryFailed Z Z.sub fmt_d query_type_name refused query_a 103
           dns_monitor
         = (self', if in_catchList refused then ReturnsNone
                   else ReraisesFailure)
         ∧ base Z self'
           = _resultDown (Some errorStr) (base Z dns_monitor)
         ∧ up_results_total (metrics (base Z self'))
           = up_results_total (metrics (base Z dns_monitor))
         ∧ down_results_total (metrics (base Z self'))
           = down_results_total (metrics (base Z dns_monitor)) + 1
         ∧ request_duration_seconds Z self'
           = request_duration_seconds Z dns_monitor
             ++ [("failed", Z.sub 103 start)]
         ∧ reports Z self'
           = reports Z dns_monitor
             ++ [("DNS query failed, " +:+ fmt_d (Z.sub 103 start)
                  +:+ " s", ERROR)]).
Proof.
  split; [reflexivity |]. split; [reflexivity |].
  apply (_queryFailed_down Z Z.sub fmt_d query_type_name refused query_a 103
           dns_monitor); reflexivity.
Defined.

Example _queryFailed_runs :
  _queryFailed Z Z.sub fmt_d query_type_name nxdomain query_a 103 dns_monitor
  = (mkDNSQuery Z (_resultUp up_monitor) false (Some 100) []
       [("en.wikipedia.org NXDOMAIN", INFO)], ReturnsNone)
  ∧ snd (_queryFailed Z Z.sub fmt_d query_type_name
           (mkFailure false false false false false false "boom")
           query_a 103 dns_monitor) = ReraisesFailure
  ∧ coordinator
      (base Z (fst (_queryFailed Z Z.sub fmt_d query_type_name refused
                      query_a 103 dns_monitor)))
    = Some (mkCoordinator
              [resultUp;
               resultDown
                 (Some "DNS query refused, query: en.wikipedia.org A")]).
Proof. split_and!; vm_compute; reflexivity. Qed.
